(** * Nuxt dev-server monitor: discovery, resolution and correlation

    A shallow embedding of the menu-bar command of the Nuxt extension
    ([getProjectInfo] and the [Command] component: the [nuxtProcesses]
    memo, the reconciling effect and the "Open GitHub Repo" action),
    together with the properties its specification states about them.

    JavaScript strings are modelled as [string], one [ascii] per code
    unit, so the model covers code units below 256 (Latin-1).  The host
    primitives the program calls (child processes, the file system,
    [JSON.parse], number formatting) are taken from an environment
    record. *)

From Stdlib Require Import String Ascii List Bool Arith Lia QArith.
From stdpp Require Import gmap strings list fin_maps.

Import ListNotations.
Set Warnings "-register-all,-clear-no-such-hyp".
Local Open Scope string_scope.
Local Open Scope bool_scope.
Local Open Scope nat_scope.

(** ** JavaScript string primitives *)

Module JsString.

(** Code unit 34, the double quote. *)
Definition dquote : ascii := ascii_of_nat 34.

(** White space as [\s] and [String.prototype.trim] see it, restricted
    to Latin-1: TAB, LF, VT, FF, CR, SPACE and NBSP. *)
Definition is_space (c : ascii) : bool :=
  let n := nat_of_ascii c in
  ((9 <=? n) && (n <=? 13)) || (n =? 32) || (n =? 160).

Definition is_digit (c : ascii) : bool :=
  let n := nat_of_ascii c in (48 <=? n) && (n <=? 57).

(** Line terminators, which [.] does not match. *)
Definition is_line_terminator (c : ascii) : bool :=
  let n := nat_of_ascii c in (n =? 10) || (n =? 13).

(** [toLowerCase] on one Latin-1 code unit. *)
Definition lower_char (c : ascii) : ascii :=
  let n := nat_of_ascii c in
  if ((65 <=? n) && (n <=? 90))
     || ((192 <=? n) && (n <=? 222) && negb (n =? 215))
  then ascii_of_nat (n + 32) else c.

Fixpoint toLowerCase (s : string) : string :=
  match s with
  | EmptyString => EmptyString
  | String c s' => String (lower_char c) (toLowerCase s')
  end.

Fixpoint take (n : nat) (s : string) : string :=
  match n, s with
  | S n', String c s' => String c (take n' s')
  | _, _ => EmptyString
  end.

Fixpoint drop (n : nat) (s : string) : string :=
  match n, s with
  | S n', String _ s' => drop n' s'
  | _, _ => s
  end.

(** [strip_prefix p s] is the rest of [s] after the prefix [p]. *)
Fixpoint strip_prefix (p s : string) : option string :=
  match p, s with
  | EmptyString, _ => Some s
  | String a p', String b s' =>
      if Ascii.eqb a b then strip_prefix p' s' else None
  | String _ _, EmptyString => None
  end.

Definition startsWith (s p : string) : bool :=
  match strip_prefix p s with Some _ => true | None => false end.

(** [indexOf s p]: position of the first occurrence of [p] in [s]. *)
Fixpoint indexOf_from (i : nat) (s p : string) : option nat :=
  if startsWith s p then Some i
  else match s with
       | EmptyString => None
       | String _ s' => indexOf_from (S i) s' p
       end.

Definition indexOf (s p : string) : option nat := indexOf_from 0 s p.

Definition includes (s p : string) : bool :=
  match indexOf s p with Some _ => true | None => false end.

(** [s.replace(p, r)] with a string pattern and a replacement without
    [$]: the first occurrence only. *)
Definition replace_str (s p r : string) : string :=
  match indexOf s p with
  | Some i => take i s ++ r ++ drop (i + String.length p) s
  | None => s
  end.

Definition substring_from (s : string) (n : nat) : string := drop n s.

Fixpoint drop_spaces (s : string) : string :=
  match s with
  | String c s' => if is_space c then drop_spaces s' else s
  | EmptyString => EmptyString
  end.

Definition trim (s : string) : string :=
  String.rev (drop_spaces (String.rev (drop_spaces s))).

(** [s.split(sep)] for a one-character separator: always at least one
    piece, empty pieces kept. *)
Fixpoint split_char (sep : ascii) (s : string) : list string :=
  match s with
  | EmptyString => [EmptyString]
  | String c s' =>
      if Ascii.eqb c sep then EmptyString :: split_char sep s'
      else match split_char sep s' with
           | piece :: rest => String c piece :: rest
           | [] => [String c EmptyString]
           end
  end.

Definition lines (s : string) : list string := split_char "010"%char s.

(** [s.split(/\s+/)]: pieces between maximal runs of white space; a
    leading or trailing run leaves an empty first or last piece.
    [in_run] records that the previous code unit was white space. *)
Fixpoint split_ws_go (in_run : bool) (s : string) : list string :=
  match s with
  | EmptyString => [EmptyString]
  | String c s' =>
      if is_space c then
        if in_run then split_ws_go true s'
        else EmptyString :: split_ws_go true s'
      else match split_ws_go false s' with
           | piece :: rest => String c piece :: rest
           | [] => [String c EmptyString]
           end
  end.

Definition split_ws (s : string) : list string := split_ws_go false s.

(** [a.join(sep)] *)
Fixpoint join (sep : string) (l : list string) : string :=
  match l with
  | [] => EmptyString
  | [x] => x
  | x :: rest => x ++ sep ++ join sep rest
  end.

(** Truthiness of a string value. *)
Definition truthy (s : string) : bool :=
  match s with EmptyString => false | _ => true end.

End JsString.

(** ** The regular expressions of the program

    A backtracking matcher with the priorities of the JavaScript one:
    leftmost start, greedy repetitions longest first, lazy ones shortest
    first.  Every repetition in the program's patterns is over a single
    character class, and each pattern has at most one capture group. *)

Module Regex.
Import JsString.

Inductive cclass : Type :=
| CSpace        (* \s *)
| CNonSpace     (* [^\s] *)
| CDigit        (* \d *)
| CDot          (* . *)
| CAll.         (* [\s\S] *)

Definition cmatch (k : cclass) (c : ascii) : bool :=
  match k with
  | CSpace => is_space c
  | CNonSpace => negb (is_space c)
  | CDigit => is_digit c
  | CDot => negb (is_line_terminator c)
  | CAll => true
  end.

Inductive quant : Type := Greedy | Lazy.

Inductive regex : Type :=
| Lit (s : string)                     (* literal characters *)
| Star (q : quant) (k : cclass)        (* k* and k*? *)
| Plus (q : quant) (k : cclass)        (* k+ and k+? *)
| Cat (r1 r2 : regex)
| Group (r : regex)                    (* capture group 1 *)
| Eos.                                 (* $ *)

Declare Scope regex_scope.
Delimit Scope regex_scope with re.
Bind Scope regex_scope with regex.
Infix "·" := Cat (at level 41, right associativity) : regex_scope.

(** What a successful run hands back: group 1 and the unread input. *)
Definition outcome : Type := option string * string.

Fixpoint star (q : quant) (k : cclass) (cont : string -> option outcome)
    (s : string) : option outcome :=
  match s with
  | EmptyString => cont s
  | String c s' =>
      match q with
      | Greedy =>
          if cmatch k c then
            match star q k cont s' with
            | Some r => Some r
            | None => cont s
            end
          else cont s
      | Lazy =>
          match cont s with
          | Some r => Some r
          | None => if cmatch k c then star q k cont s' else None
          end
      end
  end.

Fixpoint run (r : regex) (g : option string) (s : string)
    (cont : option string -> string -> option outcome) : option outcome :=
  match r with
  | Lit l =>
      match strip_prefix l s with
      | Some s' => cont g s'
      | None => None
      end
  | Star q k => star q k (cont g) s
  | Plus q k =>
      match s with
      | String c s' => if cmatch k c then star q k (cont g) s' else None
      | EmptyString => None
      end
  | Cat r1 r2 => run r1 g s (fun g' s' => run r2 g' s' cont)
  | Group r1 =>
      run r1 g s
        (fun _ s' => cont (Some (take (String.length s - String.length s') s)) s')
  | Eos =>
      match s with
      | EmptyString => cont g s
      | String _ _ => None
      end
  end.

(** The match array: [index], element 0 and element 1. *)
Record rmatch : Type := MkMatch {
  m_index : nat;
  m_text : string;
  m_group1 : option string
}.

Definition match_here (r : regex) (s : string) : option outcome :=
  run r None s (fun g rest => Some (g, rest)).

Fixpoint search (r : regex) (idx : nat) (s : string) : option rmatch :=
  match match_here r s with
  | Some (g, rest) =>
      Some (MkMatch idx (take (String.length s - String.length rest) s) g)
  | None =>
      match s with
      | EmptyString => None
      | String _ s' => search r (S idx) s'
      end
  end.

(** [s.match(r)] for a regular expression without the [g] flag. *)
Definition str_match (s : string) (r : regex) : option rmatch := search r 0 s.

(** [s.replace(r, repl)] for a regular expression without the [g] flag. *)
Definition replace_re (s : string) (r : regex) (repl : string) : string :=
  match str_match s r with
  | Some m =>
      take (m_index m) s ++ repl
        ++ drop (m_index m + String.length (m_text m)) s
  | None => s
  end.

End Regex.

(** ** Exceptions

    Code that can throw returns a [result]; [try_catch] is the
    [try { ... } catch (e) { ... }] statement. *)

Inductive result (A : Type) : Type :=
| Ok (a : A)
| Throw (e : string).

Arguments Ok {A} a.
Arguments Throw {A} e.

Definition rbind {A B : Type} (m : result A) (f : A -> result B) : result B :=
  match m with
  | Ok a => f a
  | Throw e => Throw e
  end.

Definition try_catch {A : Type} (body : result A) (handler : string -> result A)
    : result A :=
  match body with
  | Ok a => Ok a
  | Throw e => handler e
  end.

#[global] Instance result_bind : MBind result :=
  fun A B f m => rbind m f.

(** ** Values produced by [JSON.parse] *)

Inductive jsval : Type :=
| JUndefined
| JNull
| JBool (b : bool)
| JNum (q : Q)
| JStr (s : string)
| JArr (items : list jsval)
| JObj (fields : list (string * jsval)).

Module JsVal.

Definition truthy (v : jsval) : bool :=
  match v with
  | JUndefined | JNull => false
  | JBool b => b
  | JNum q => negb (Qeq_bool q 0)
  | JStr s => JsString.truthy s
  | JArr _ | JObj _ => true
  end.

Fixpoint lookup_field (k : string) (fields : list (string * jsval)) : jsval :=
  match fields with
  | [] => JUndefined
  | (k', v) :: rest => if String.eqb k k' then v else lookup_field k rest
  end.

(** [v.k] for one of the keys the program reads ([name], [version],
    [repository], [url]): a [TypeError] on [null] and [undefined], the
    member of an object, [undefined] on every other value. *)
Definition get (v : jsval) (k : string) : result jsval :=
  match v with
  | JUndefined | JNull => Throw "TypeError"
  | JObj fields => Ok (lookup_field k fields)
  | _ => Ok JUndefined
  end.

(** [v?.k] *)
Definition get_opt (v : jsval) (k : string) : result jsval :=
  match v with
  | JUndefined | JNull => Ok JUndefined
  | _ => get v k
  end.

(** [a || b] *)
Definition or (a b : jsval) : jsval := if truthy a then a else b.

End JsVal.

(** ** Data model *)

Record ProjectInfo : Type := MkProjectInfo {
  name : jsval;
  version : jsval;
  repository : jsval
}.

(** The return value of [getProjectInfo]; [{}] is [no_details]. *)
Record ResolvedDetails : Type := MkDetails {
  cwd : option string;
  projectInfo : option ProjectInfo;
  memory : option string;
  cpu : option string
}.

Definition no_details : ResolvedDetails := MkDetails None None None None.

Record NuxtProcess : Type := MkProcess {
  pid : string;
  port : string;
  command : string
}.

(** Truthiness of a [string | undefined]. *)
Definition truthy_opt (o : option string) : bool :=
  match o with
  | Some s => JsString.truthy s
  | None => false
  end.

(** ** The host environment *)

Record Env : Type := MkEnv {
  (** [execSync(cmd, ...)]: the trimmed-or-not standard output, or a
      throw on a non-zero exit status or a timeout. *)
  execSync : string -> result string;
  existsSync : string -> bool;
  readFileSync : string -> result string;
  JSON_parse : string -> result jsval;
  (** [join(...)] of [path]. *)
  path_join : list string -> string;
  (** [`${Math.round(parseInt(t, 10) / 1024)} MB`], floating point. *)
  memory_text : string -> string;
  (** [`${parseFloat(t).toFixed(1)}%`], floating point. *)
  cpu_text : string -> string
}.

(** ** Project Resolver: [getProjectInfo] *)

Module Resolver.
Import JsString Regex.
Local Open Scope regex_scope.

(** [/node\s+([^\s]+)\/node_modules\/.*?nuxt.*?\s+dev/] *)
Definition pattern_node_modules : regex :=
  Lit "node" · Plus Greedy CSpace · Group (Plus Greedy CNonSpace)
  · Lit "/node_modules/" · Star Lazy CDot · Lit "nuxt" · Star Lazy CDot
  · Plus Greedy CSpace · Lit "dev".

(** [/node\s+([^\s]+\/)\.nuxt\/dev/] *)
Definition pattern_dot_nuxt : regex :=
  Lit "node" · Plus Greedy CSpace · Group (Plus Greedy CNonSpace · Lit "/")
  · Lit ".nuxt/dev".

(** [/npx\s+nuxi.*?\s+-C\s+([^\s]+)/] *)
Definition pattern_nuxi_C : regex :=
  Lit "npx" · Plus Greedy CSpace · Lit "nuxi" · Star Lazy CDot
  · Plus Greedy CSpace · Lit "-C" · Plus Greedy CSpace
  · Group (Plus Greedy CNonSpace).

(** [/npm\s+run\s+dev.*?--prefix\s+([^\s]+)/] *)
Definition pattern_npm_prefix : regex :=
  Lit "npm" · Plus Greedy CSpace · Lit "run" · Plus Greedy CSpace
  · Lit "dev" · Star Lazy CDot · Lit "--prefix" · Plus Greedy CSpace
  · Group (Plus Greedy CNonSpace).

Definition nuxtPatterns : list regex :=
  [pattern_node_modules; pattern_dot_nuxt; pattern_nuxi_C; pattern_npm_prefix].

(** [/\/$/] *)
Definition trailing_slash : regex := Lit "/" · Eos.

(** [/\[remote "origin"\][\s\S]*?url\s*=\s*(.+)/] *)
Definition pattern_origin_url : regex :=
  Lit ("[remote " ++ String dquote "origin" ++ String dquote "]")
  · Star Lazy CAll · Lit "url" · Star Greedy CSpace · Lit "="
  · Star Greedy CSpace · Group (Plus Greedy CDot).

(** The [for (const pattern of nuxtPatterns)] loop: the first pattern
    that matches with a non-empty group 1 sets [cwd] and breaks. *)
Fixpoint firstCapture (patterns : list regex) (command : string)
    : option string :=
  match patterns with
  | [] => None
  | pattern :: rest =>
      match str_match command pattern with
      | Some m =>
          match m_group1 m with
          | Some g =>
              if JsString.truthy g then Some (replace_re g trailing_slash "")
              else firstCapture rest command
          | None => firstCapture rest command
          end
      | None => firstCapture rest command
      end
  end.

(** Directory inference from the command line alone. *)
Definition inferDirectory (command : string) : option string :=
  firstCapture nuxtPatterns command.

(** The loop over the lines of the [lsof -Fn] output. *)
Fixpoint firstNameLine (ls : list string) : option string :=
  match ls with
  | [] => None
  | line :: rest =>
      if startsWith line "n" then Some (substring_from line 1)
      else firstNameLine rest
  end.

Section WithEnv.
Variable env : Env.

Definition lsofCommand (pid : string) : string :=
  "lsof -a -p " ++ pid ++ " -d cwd -Fn 2>/dev/null".

Definition psCommand (pid : string) : string :=
  "ps -p " ++ pid ++ " -o rss=,pcpu= 2>/dev/null".

(** Lines 59-72: the [lsof] fallback, run when [cwd] is falsy. *)
Definition lsofFallback (pid : string) (cwd : option string)
    : result (option string) :=
  if negb (truthy_opt cwd) then
    try_catch
      (out ← execSync env (lsofCommand pid);
       match firstNameLine (lines (trim out)) with
       | Some d => Ok (Some d)
       | None => Ok cwd
       end)
      (fun _ => Ok cwd)
  else Ok cwd.

(** Lines 82-93: the manifest. *)
Definition readManifest (dir : string) : result (option ProjectInfo) :=
  let packageJsonPath := path_join env [dir; "package.json"] in
  if existsSync env packageJsonPath then
    try_catch
      (text ← readFileSync env packageJsonPath;
       packageJson ← JSON_parse env text;
       nm ← JsVal.get packageJson "name";
       ver ← JsVal.get packageJson "version";
       repo ← JsVal.get packageJson "repository";
       url ← JsVal.get_opt repo "url";
       repo' ← JsVal.get packageJson "repository";
       Ok (Some (MkProjectInfo nm ver (JsVal.or url repo'))))
      (fun _ => Ok None)
  else Ok None.

(** Lines 96-110: the remote of [.git/config]. *)
Definition readGitRemote (dir : string) (info : option ProjectInfo)
    : result (option ProjectInfo) :=
  match info with
  | Some pi =>
      if negb (JsVal.truthy (repository pi)) then
        let gitConfigPath := path_join env [dir; ".git"; "config"] in
        if existsSync env gitConfigPath then
          try_catch
            (gitConfig ← readFileSync env gitConfigPath;
             match str_match gitConfig pattern_origin_url with
             | Some m =>
                 match m_group1 m with
                 | Some g =>
                     if JsString.truthy g then
                       Ok (Some (MkProjectInfo (name pi) (version pi)
                                   (JStr (trim g))))
                     else Ok info
                 | None => Ok info
                 end
             | None => Ok info
             end)
            (fun _ => Ok info)
        else Ok info
      else Ok info
  | None => Ok None
  end.

(** Lines 113-131: memory and CPU. *)
Definition sampleResources (pid : string)
    : result (option string * option string) :=
  try_catch
    (out ← execSync env (psCommand pid);
     let psOutput := trim out in
     if JsString.truthy psOutput then
       match filter (fun t => JsString.truthy t = true) (split_ws psOutput) with
       | rss :: pcpu :: _ =>
           Ok (Some (memory_text env rss), Some (cpu_text env pcpu))
       | _ => Ok (None, None)
       end
     else Ok (None, None))
    (fun _ => Ok (None, None)).

Definition getProjectInfo (pid command : string) : result ResolvedDetails :=
  try_catch
    (dir ← lsofFallback pid (inferDirectory command);
     match dir with
     | Some d =>
         if negb (JsString.truthy d) then Ok no_details
         else
           info ← readManifest d;
           info' ← readGitRemote d info;
           usage ← sampleResources pid;
           Ok (MkDetails (Some d) info' (fst usage) (snd usage))
     | None => Ok no_details
     end)
    (fun _ => Ok no_details).

End WithEnv.

End Resolver.

(** ** Port Scanner and Process Classifier: the [nuxtProcesses] memo *)

Module Scanner.
Import JsString Regex.
Local Open Scope regex_scope.

(** [/:(\d+)/] *)
Definition pattern_port : regex := Lit ":" · Group (Plus Greedy CDigit).

(** The generic command string of line 180. *)
Definition placeholder (port : string) : string :=
  "Node.js server on port " ++ port.

(** Lines 166-176: the process id and the port of one [lsof] line;
    [None] is [continue]. *)
Definition parseLine (line : string) : option (string * string) :=
  match split_ws (trim line) with
  | pid :: address :: _ =>
      match str_match address pattern_port with
      | Some portMatch =>
          match m_group1 portMatch with
          | Some port => Some (pid, port)
          | None => None
          end
      | None => None
      end
  | _ => None
  end.

Definition hasKeyword (lowerLine : string) : bool :=
  includes lowerLine "nuxt" || includes lowerLine "nuxi"
  || includes lowerLine "nitro".

(** Lines 184-194: the loop over the lines of the [ps] output. *)
Fixpoint classifyLines (pid : string) (command : string)
    (psLines : list string) : bool * string :=
  match psLines with
  | [] => (false, command)
  | psLine :: rest =>
      if includes psLine pid then
        if hasKeyword (toLowerCase psLine)
        then (true, join " " (skipn 10 (split_ws psLine)))
        else classifyLines pid command rest
      else classifyLines pid command rest
  end.

(** Lines 179-198: [(isNuxt, command)] for one candidate. *)
Definition classify (psData : option string) (pid port : string)
    : bool * string :=
  if truthy_opt psData then
    match psData with
    | Some text => classifyLines pid (placeholder port) (lines text)
    | None => (true, placeholder port)
    end
  else (true, placeholder port).

(** The [for (const line of lsofLines)] loop. *)
Fixpoint scanLines (psData : option string) (lsofLines : list string)
    : list NuxtProcess :=
  match lsofLines with
  | [] => []
  | line :: rest =>
      match parseLine line with
      | Some (pid, port) =>
          let '(isNuxt, command) := classify psData pid port in
          if isNuxt then MkProcess pid port command :: scanLines psData rest
          else scanLines psData rest
      | None => scanLines psData rest
      end
  end.

Definition nuxtProcesses (lsofData psData : option string)
    : list NuxtProcess :=
  match lsofData with
  | Some text =>
      if negb (JsString.truthy text) || String.eqb (trim text) ""
      then []
      else
        let lsofLines :=
          filter (fun l => JsString.truthy (trim l) = true)
                 (lines (trim text)) in
        scanLines psData lsofLines
  | None => []
  end.

End Scanner.

(** ** Repository URL clean-up of the "Open GitHub Repo" action *)

Module RepoUrl.
Import JsString Regex.
Local Open Scope regex_scope.

(** [/\.git$/] *)
Definition git_suffix : regex := Lit ".git" · Eos.

(** Lines 386-393. *)
Definition normalize (repository : string) : string :=
  let repoUrl := repository in
  let repoUrl :=
    if startsWith repoUrl "git+" then substring_from repoUrl 4 else repoUrl in
  let repoUrl :=
    if startsWith repoUrl "git@"
    then replace_str repoUrl "git@github.com:" "https://github.com/"
    else repoUrl in
  replace_re repoUrl git_suffix "".

End RepoUrl.

(** ** Correlation Store: the reconciling effect *)

Module Store.

(** One [getProjectInfo(pid, command)] call. *)
Definition call : Type := string * string.

(** What one run of the effect did: the map handed to
    [setProcessDetails], if it was called, and the resolution calls
    made, in order. *)
Record effect : Type := MkEffect {
  updated : option (gmap string ResolvedDetails);
  calls : list call
}.

(** The state the next render sees. *)
Definition storeAfter (processDetails : gmap string ResolvedDetails)
    (e : effect) : gmap string ResolvedDetails :=
  default processDetails (updated e).

Definition has (m : gmap string ResolvedDetails) (k : string) : bool :=
  bool_decide (is_Some (m !! k)).

Definition keys (m : gmap string ResolvedDetails) : list string :=
  (map_to_list m).*1.

Section WithEnv.
Variable env : Env.

(** Lines 258-263: resolve the processes [newDetails] does not hold. *)
Fixpoint fetchNew (procs : list NuxtProcess)
    (newDetails : gmap string ResolvedDetails) (log : list call)
    : result (gmap string ResolvedDetails * list call) :=
  match procs with
  | [] => Ok (newDetails, log)
  | process :: rest =>
      if negb (has newDetails (pid process)) then
        info ← Resolver.getProjectInfo env (pid process) (command process);
        fetchNew rest (<[pid process := info]> newDetails)
                 (log ++ [(pid process, command process)])
      else fetchNew rest newDetails log
  end.

(** Lines 218-266, the body of the effect. *)
Definition reconcile (nuxtProcesses : list NuxtProcess)
    (processDetails : gmap string ResolvedDetails) : result effect :=
  if length nuxtProcesses =? 0 then
    if 0 <? size processDetails
    then Ok (MkEffect (Some ∅) [])
    else Ok (MkEffect None [])
  else
    let activePids : gset string := list_to_set (pid <$> nuxtProcesses) in
    let needsUpdate :=
      existsb (fun process => negb (has processDetails (pid process)))
              nuxtProcesses in
    let needsUpdate :=
      needsUpdate
      || existsb (fun k => negb (bool_decide (k ∈ activePids)))
                 (keys processDetails) in
    if negb needsUpdate then Ok (MkEffect None [])
    else
      let kept : gmap string ResolvedDetails :=
        filter (fun kv => kv.1 ∈ activePids) processDetails in
      '(newDetails, log) ← fetchNew nuxtProcesses kept [];
      Ok (MkEffect (Some newDetails) log).

End WithEnv.

End Store.

(** ** Presentation: the menu built from the processes and the store *)

Module View.
Import JsString.

(** [new Set(xs)] keeps the first occurrence of each value, in order;
    [add] is the insertion of one value. *)
Definition add (seen : list string) (x : string) : list string :=
  if existsb (String.eqb x) seen then seen else (seen ++ [x])%list.

(** Lines 276-279: [Array.from(new Set(nuxtProcesses.map(p => p.port)))]. *)
Definition ports (nuxtProcesses : list NuxtProcess) : list string :=
  fold_left add (map port nuxtProcesses) [].

(** Line 273. *)
Definition hasNuxtRunning (nuxtProcesses : list NuxtProcess) : bool :=
  0 <? length nuxtProcesses.

(** Line 334. *)
Definition processesOnPort (nuxtProcesses : list NuxtProcess) (p : string)
    : list NuxtProcess :=
  List.filter (fun q => String.eqb (port q) p) nuxtProcesses.

(** Lines 335-336: [mainProcess ? processDetails.get(mainProcess.pid)
    : undefined]. *)
Definition detailsOf (processDetails : gmap string ResolvedDetails)
    (nuxtProcesses : list NuxtProcess) (p : string) : option ResolvedDetails :=
  match head (processesOnPort nuxtProcesses p) with
  | Some mainProcess => processDetails !! pid mainProcess
  | None => None
  end.

(** [details?.projectInfo?.f] *)
Definition infoField (f : ProjectInfo -> jsval)
    (details : option ResolvedDetails) : jsval :=
  match details with
  | Some d =>
      match projectInfo d with
      | Some info => f info
      | None => JUndefined
      end
  | None => JUndefined
  end.

(** Line 337: [details?.projectInfo?.name || `Port ${port}`]. *)
Definition projectName (details : option ResolvedDetails) (p : string)
    : jsval :=
  JsVal.or (infoField name details) (JStr ("Port " ++ p)).

(** The entries of one submenu; each carries the value its title or
    its action interpolates. *)
Inductive item : Type :=
| PortItem (p : string)              (* `Port: ${port}` *)
| VersionItem (v : jsval)            (* `Version: ${...version}` *)
| MemoryItem (m : string)            (* `Memory: ${details.memory}` *)
| CpuItem (c : string)               (* `CPU: ${details.cpu}` *)
| Separator
| OpenInBrowser (p : string)         (* handleOpenBrowser(port) *)
| OpenGitHubRepo (repository : jsval)
| StopServer (pid : string).         (* handleKillProcess(process.pid) *)

(** [cond && <Item/>]: the entry when [cond] is truthy. *)
Definition whenTruthy (v : jsval) (i : item) : list item :=
  if JsVal.truthy v then [i] else [].

Definition whenText (o : option string) (mk : string -> item) : list item :=
  match o with
  | Some s => if JsString.truthy s then [mk s] else []
  | None => []
  end.

Record submenu : Type := MkSubmenu {
  key : string;
  title : jsval;
  items : list item
}.

(** Lines 333-418: the submenu of one port. *)
Definition portSubmenu (processDetails : gmap string ResolvedDetails)
    (nuxtProcesses : list NuxtProcess) (p : string) : submenu :=
  let onPort := processesOnPort nuxtProcesses p in
  let details := detailsOf processDetails nuxtProcesses p in
  MkSubmenu p (projectName details p)
    ([PortItem p]
     ++ whenTruthy (infoField version details)
          (VersionItem (infoField version details))
     ++ whenText (details ≫= memory) MemoryItem
     ++ whenText (details ≫= cpu) CpuItem
     ++ [Separator; OpenInBrowser p]
     ++ whenTruthy (infoField repository details)
          (OpenGitHubRepo (infoField repository details))
     ++ [Separator]
     ++ map (fun process => StopServer (pid process)) onPort)%list.

(** The "Running Servers" section: one submenu per port, or nothing
    when no server runs (the "No Nuxt servers detected" branch). *)
Definition runningServers (processDetails : gmap string ResolvedDetails)
    (nuxtProcesses : list NuxtProcess) : list submenu :=
  if hasNuxtRunning nuxtProcesses
  then map (portSubmenu processDetails nuxtProcesses) (ports nuxtProcesses)
  else [].

(** Lines 386-393, the URL the "Open GitHub Repo" action hands to
    [open]: [startsWith] exists on strings only, any other value raises
    inside the action's [try]. *)
Definition repoUrlToOpen (repository : jsval) : result string :=
  match repository with
  | JStr s => Ok (RepoUrl.normalize s)
  | _ => Throw "TypeError"
  end.

End View.

(** ** Component search ([utils/search.ts]) *)

Module Search.
Import JsString.

Record ComponentItem : Type := MkItem {
  name : string;
  type : string;
  camelCaseName : string
}.

Section WithCatalogue.
(** The two name lists of [./components] and the two case converters
    of [scule], which [getAllComponents] imports. *)
Variables components proseComponents : list string.
Variables kebabCase camelCase : string -> string.

(** Lines 7-29. *)
Definition getAllComponents : list ComponentItem :=
  (map (fun n => MkItem (kebabCase n) "base" (camelCase n)) components
   ++ map (fun n => MkItem (kebabCase n) "prose" (camelCase n))
        proseComponents)%list.

End WithCatalogue.

(** The callback of lines 39-55. *)
Definition keeps (searchText : string) (selectedType : option string)
    (component : ComponentItem) : bool :=
  if truthy_opt selectedType
     && negb (bool_decide (Some (type component) = selectedType))
  then false
  else
    if JsString.truthy searchText then
      let normalizedSearchText := toLowerCase searchText in
      includes (toLowerCase (name component)) normalizedSearchText
      || includes (toLowerCase (camelCaseName component))
           normalizedSearchText
    else true.

(** Lines 34-56. *)
Definition filterComponents (components : list ComponentItem)
    (searchText : string) (selectedType : option string)
    : list ComponentItem :=
  List.filter (keeps searchText selectedType) components.

End Search.

(** * Vocabulary of the properties *)

Module ResolverSpec.
Import JsString Regex Resolver.

(** The capture a rule contributes: group 1 of its match, when the
    rule matches and the group is not empty. *)
Definition ruleCapture (command : string) (pattern : regex) : option string :=
  match str_match command pattern with
  | Some m =>
      match m_group1 m with
      | Some g => if JsString.truthy g then Some g else None
      | None => None
      end
  | None => None
  end.

(** The spec's reading of step 1: the capture of the first rule, in
    list order, that has one. *)
Fixpoint firstMatchingRule (command : string) (patterns : list regex)
    : option string :=
  match patterns with
  | [] => None
  | pattern :: rest =>
      match ruleCapture command pattern with
      | Some g => Some g
      | None => firstMatchingRule command rest
      end
  end.

Definition stripTrailingSlash (path : string) : string :=
  replace_re path trailing_slash "".

(** An environment in which [lsof] fails, no file exists, and [ps]
    answers 2048 KB and 1.5 percent for every process. *)
Definition env_ps_only : Env :=
  MkEnv (fun c => if startsWith c "ps " then Ok " 2048   1.5" else Throw "exit 1")
        (fun _ => false)
        (fun _ => Throw "ENOENT")
        (fun _ => Throw "SyntaxError")
        (fun parts => join "/" parts)
        (fun _ => "2 MB")
        (fun _ => "1.5%").

End ResolverSpec.

Module ScannerSpec.
Import JsString Regex Scanner.

(** Every code unit of the text satisfies [f]. *)
Fixpoint every (f : ascii -> bool) (s : string) : bool :=
  match s with
  | EmptyString => true
  | String c s' => f c && every f s'
  end.

(** Every code unit of the text is white space. *)
Definition all_space (s : string) : bool := every is_space s.

(** The text has no colon. *)
Definition no_colon (s : string) : bool :=
  every (fun c => negb (Ascii.eqb c ":")) s.

(** The scan got nothing: the command failed ([undefined]) or printed
    only white space. *)
Definition blankOutput (lsofData : option string) : bool :=
  match lsofData with
  | None => true
  | Some text => all_space text
  end.

End ScannerSpec.

Module StoreSpec.
Import Store.

Section WithEnv.
Variable env : Env.

(** What the second loop of the effect leaves behind. *)
Record fetched (procs : list NuxtProcess)
    (before after : gmap string ResolvedDetails) (log : list call)
    : Prop := MkFetched {
  fetched_dom :
    dom after = dom before ∪ list_to_set (pid <$> procs);
  fetched_kept :
    forall k, k ∈ dom before -> after !! k = before !! k;
  fetched_calls :
    forall c, c ∈ log ->
      (c.1 ∉ dom before)
      /\ (exists process, process ∈ procs
                          /\ c = (pid process, command process));
  fetched_once : NoDup log.*1;
  fetched_new :
    forall k, k ∈ dom after -> k ∉ dom before ->
      exists cmd info,
        (k, cmd) ∈ log
        /\ Resolver.getProjectInfo env k cmd = Ok info
        /\ after !! k = Some info
}.

(** The state of the store after one run of the effect, against the
    poll that triggered it. *)
Record reconciled (procs : list NuxtProcess)
    (store : gmap string ResolvedDetails) (e : effect) : Prop :=
MkReconciled {
  rec_dom :
    dom (storeAfter store e) = list_to_set (pid <$> procs);
  rec_removed :
    forall k, k ∉@{gset string} list_to_set (pid <$> procs) ->
      storeAfter store e !! k = None;
  rec_kept :
    forall k, k ∈@{gset string} list_to_set (pid <$> procs) ->
      k ∈ dom store -> storeAfter store e !! k = store !! k;
  rec_calls :
    forall c, c ∈ calls e ->
      (c.1 ∉ dom store)
      /\ (exists process, process ∈ procs
                          /\ c = (pid process, command process));
  rec_once : NoDup (calls e).*1;
  rec_new :
    forall k, k ∈@{gset string} list_to_set (pid <$> procs) ->
      k ∉ dom store ->
      exists cmd info,
        (k, cmd) ∈ calls e
        /\ Resolver.getProjectInfo env k cmd = Ok info
        /\ storeAfter store e !! k = Some info
}.

End WithEnv.

End StoreSpec.

Module RegexSpec.
Import JsString Regex ScannerSpec.

(** A pattern without capture group that reads only code units
    satisfying [f]. *)
Fixpoint reads_only (f : ascii -> bool) (r : regex) : Prop :=
  match r with
  | Lit l => every f l = true
  | Star _ k | Plus _ k => forall c, cmatch k c = true -> f c = true
  | Cat r1 r2 => reads_only f r1 /\ reads_only f r2
  | Group _ => False
  | Eos => True
  end.

(** A pattern all of whose capture groups read only code units
    satisfying [f]. *)
Fixpoint captures_only (f : ascii -> bool) (r : regex) : Prop :=
  match r with
  | Lit _ | Star _ _ | Plus _ _ | Eos => True
  | Cat r1 r2 => captures_only f r1 /\ captures_only f r2
  | Group r1 => reads_only f r1
  end.

(** The least number of code units a match of the pattern reads. *)
Fixpoint min_len (r : regex) : nat :=
  match r with
  | Lit l => String.length l
  | Star _ _ | Eos => 0
  | Plus _ _ => 1
  | Cat r1 r2 => min_len r1 + min_len r2
  | Group r1 => min_len r1
  end.

(** Group 1, when set, holds only code units satisfying [f]. *)
Definition group_all (f : ascii -> bool) (g : option string) : Prop :=
  match g with
  | Some s => every f s = true
  | None => True
  end.

Definition not_space (c : ascii) : bool := negb (is_space c).

Definition not_line_terminator (c : ascii) : bool :=
  negb (is_line_terminator c).

(** A port number: one decimal digit or more. *)
Definition is_port (s : string) : Prop :=
  s <> "" /\ every is_digit s = true.

End RegexSpec.

Module Fixtures.
Import JsString.

Definition newline : string := String "010" "".

(** [s] between double quotes. *)
Definition quoted (s : string) : string :=
  String dquote (s ++ String dquote "").

(** [{"name":"app","version":"1.2.3"}] *)
Definition manifest_text : string :=
  "{" ++ quoted "name" ++ ":" ++ quoted "app" ++ ","
  ++ quoted "version" ++ ":" ++ quoted "1.2.3" ++ "}".

Definition manifest_value : jsval :=
  JObj [("name", JStr "app"); ("version", JStr "1.2.3")].

(** A [.git/config] with one remote. *)
Definition git_config_text : string :=
  "[core]" ++ newline
  ++ "[remote " ++ quoted "origin" ++ "]" ++ newline
  ++ "  url = git@github.com:a/b.git" ++ newline
  ++ "  fetch = +refs/heads/*:refs/remotes/origin/*" ++ newline.

(** A machine on which process 4242 runs in [/srv/app], a project with
    the manifest and the git configuration above, using 51200 KB and
    2 percent of a CPU. *)
Definition env_project : Env :=
  MkEnv
    (fun c =>
       if startsWith c "lsof "
       then Ok ("p4242" ++ newline ++ "fcwd" ++ newline ++ "n/srv/app" ++ newline)
       else if startsWith c "ps " then Ok ("  51200  2.0" ++ newline)
       else Throw "exit 1")
    (fun path => String.eqb path "/srv/app/package.json"
                 || String.eqb path "/srv/app/.git/config")
    (fun path =>
       if String.eqb path "/srv/app/package.json" then Ok manifest_text
       else if String.eqb path "/srv/app/.git/config" then Ok git_config_text
       else Throw "ENOENT")
    (fun text =>
       if String.eqb text manifest_text then Ok manifest_value
       else Throw "SyntaxError")
    (fun parts => join "/" parts)
    (fun _ => "50 MB")
    (fun _ => "2.0%").

(** The same machine with [ps] failing. *)
Definition env_project_no_ps : Env :=
  MkEnv
    (fun c =>
       if startsWith c "lsof "
       then Ok ("p4242" ++ newline ++ "fcwd" ++ newline ++ "n/srv/app" ++ newline)
       else Throw "exit 1")
    (existsSync env_project)
    (readFileSync env_project)
    (JSON_parse env_project)
    (path_join env_project)
    (memory_text env_project)
    (cpu_text env_project).

(** A machine on which every command and every file access fails. *)
Definition env_failing : Env :=
  MkEnv (fun _ => Throw "exit 1")
        (fun _ => true)
        (fun _ => Throw "EACCES")
        (fun _ => Throw "SyntaxError")
        (fun parts => join "/" parts)
        (fun _ => "0 MB")
        (fun _ => "0.0%").

(** [{"name":"lib","repository":{"type":"git"}}], as parsed. *)
Definition manifest_object_repository : jsval :=
  JObj [("name", JStr "lib"); ("repository", JObj [("type", JStr "git")])].

(** A machine whose every [package.json] is that manifest. *)
Definition env_object_repository : Env :=
  MkEnv (fun _ => Throw "exit 1")
        (fun _ => true)
        (fun _ => Ok "MANIFEST")
        (fun _ => Ok manifest_object_repository)
        (fun parts => join "/" parts)
        (fun _ => "1 MB")
        (fun _ => "0.0%").

End Fixtures.

Module MenuSpec.

(** The process ids of the "Stop Server" entries of a submenu. *)
Definition stopTargets (m : View.submenu) : list string :=
  omap (fun i => match i with View.StopServer k => Some k | _ => None end)
       (View.items m).

End MenuSpec.

Module UrlSpec.
Import JsString.

(** [s.endsWith(l)] *)
Definition endsWith (s l : string) : bool :=
  String.eqb (drop (String.length s - String.length l) s) l.

End UrlSpec.

Module DashCSpec.
Import JsString Regex ScannerSpec.

(** A non-empty run of white space. *)
Definition blank (s : string) : bool :=
  JsString.truthy s && every is_space s.

(** The text is at its end or goes on with white space. *)
Definition starts_blank (s : string) : bool :=
  match s with
  | EmptyString => true
  | String c _ => is_space c
  end.

(** The text goes on with white space. *)
Definition starts_space (s : string) : bool :=
  match s with
  | EmptyString => false
  | String c _ => is_space c
  end.

(** The text is at its end or goes on with a code unit outside [k]. *)
Definition head_not (k : cclass) (s : string) : bool :=
  match s with
  | EmptyString => true
  | String c _ => negb (cmatch k c)
  end.

(** The text is empty or ends with a code unit that is not white
    space. *)
Fixpoint last_solid (s : string) : bool :=
  match s with
  | EmptyString => true
  | String c EmptyString => negb (is_space c)
  | String _ s' => last_solid s'
  end.

End DashCSpec.

(** * Properties *)

(** ** Facts about the string primitives *)

Module JsStringFacts.
Import JsString.

Lemma app_nil_l (b : string) : "" ++ b = b.
Proof. reflexivity. Qed.

Lemma app_cons (c : ascii) (a b : string) :
  String c a ++ b = String c (a ++ b).
Proof. reflexivity. Qed.

Ltac string_ind a :=
  induction a as [|? a ?]; rewrite ?app_nil_l, ?app_cons; cbn.

Lemma length_app (a b : string) :
  String.length (a ++ b) = String.length a + String.length b.
Proof. string_ind a; [reflexivity | now f_equal]. Qed.

Lemma app_empty_r (a : string) : a ++ "" = a.
Proof. string_ind a; [reflexivity | now f_equal]. Qed.

Lemma take_all (a : string) : take (String.length a) a = a.
Proof. string_ind a; [reflexivity | now f_equal]. Qed.

Lemma take_app (a b : string) : take (String.length a) (a ++ b) = a.
Proof. string_ind a; [now destruct b | now f_equal]. Qed.

Lemma drop_app (a b : string) : drop (String.length a) (a ++ b) = b.
Proof. string_ind a; [now destruct b | assumption]. Qed.

Lemma drop_all (a : string) : drop (String.length a) a = "".
Proof. string_ind a; [reflexivity | assumption]. Qed.

Lemma strip_prefix_app (p s : string) : strip_prefix p (p ++ s) = Some s.
Proof.
  string_ind p; [reflexivity|].
  now rewrite Ascii.eqb_refl.
Qed.

Lemma strip_prefix_Some (p s s' : string) :
  strip_prefix p s = Some s' -> s = p ++ s'.
Proof.
  revert s; induction p as [|c p IH]; intros s; cbn.
  - now intros [= ->].
  - destruct s as [|b s]; [discriminate|].
    destruct (Ascii.eqb c b) eqn:E; [|discriminate].
    apply Ascii.eqb_eq in E as ->. intros H.
    now rewrite app_cons, <- (IH _ H).
Qed.



End JsStringFacts.

(** ** Facts about the matcher *)

Module RegexFacts.
Import JsString Regex JsStringFacts.
Local Open Scope regex_scope.

(** An anchored literal [l$] matches at a position exactly when what
    is left of the input is [l]. *)
Lemma match_here_suffix (l s : string) :
  match_here (Lit l · Eos) s
  = if String.eqb s l then Some (None, "") else None.
Proof.
  unfold match_here; simpl.
  destruct (strip_prefix l s) as [s'|] eqn:E.
  - apply strip_prefix_Some in E as ->.
    destruct s' as [|c s']; cbn.
    + now rewrite app_empty_r, String.eqb_refl.
    + destruct (String.eqb (l ++ String c s') l) eqn:E; [|reflexivity].
      apply String.eqb_eq in E. apply (f_equal String.length) in E.
      rewrite length_app in E. simpl in E. lia.
  - destruct (String.eqb s l) eqn:E'; [|reflexivity].
    apply String.eqb_eq in E' as ->.
    pose proof (strip_prefix_app l "") as P.
    rewrite app_empty_r in P. congruence.
Qed.

Lemma search_suffix (l p : string) (idx : nat) :
  search (Lit l · Eos) idx (p ++ l)
  = Some (MkMatch (idx + String.length p) l None).
Proof.
  revert idx; induction p as [|c p IH]; intros idx.
  - rewrite app_nil_l.
    assert (search (Lit l · Eos) idx l
            = Some (MkMatch idx (take (String.length l - 0) l) None)) as ->.
    { destruct l; cbn [search]; rewrite match_here_suffix;
        now rewrite String.eqb_refl. }
    now rewrite Nat.sub_0_r, Nat.add_0_r, take_all.
  - rewrite app_cons.
    cbn [search]. rewrite match_here_suffix.
    destruct (String.eqb (String c (p ++ l)) l) eqn:E.
    + apply String.eqb_eq in E. apply (f_equal String.length) in E.
      simpl in E. rewrite length_app in E. lia.
    + rewrite IH. simpl. do 2 f_equal. lia.
Qed.

(** Removing an anchored literal suffix. *)
Lemma replace_suffix (l p : string) :
  replace_re (p ++ l) (Lit l · Eos) "" = p.
Proof.
  unfold replace_re, str_match. rewrite search_suffix. simpl.
  rewrite take_app.
  replace (drop _ _) with "".
  - apply app_empty_r.
  - rewrite <- length_app. now rewrite drop_all.
Qed.

End RegexFacts.

(** ** Project Resolver *)

Module ResolverProps.
Import JsString Regex Resolver ResolverSpec JsStringFacts RegexFacts.

Lemma firstCapture_refines (patterns : list regex) (command : string) :
  firstCapture patterns command
  = stripTrailingSlash <$> firstMatchingRule command patterns.
Proof.
  induction patterns as [|p rest IH]; [reflexivity|].
  cbn [firstCapture firstMatchingRule]. unfold ruleCapture.
  destruct (str_match command p) as [m|]; [|exact IH].
  destruct (m_group1 m) as [g|]; [|exact IH].
  destruct (JsString.truthy g); [reflexivity | exact IH].
Qed.

Lemma stripTrailingSlash_slash (path : string) :
  stripTrailingSlash (path ++ "/") = path.
Proof. apply replace_suffix. Qed.

(** C5. On the command line
    [node /home/u/app/node_modules/.bin/nuxt dev] directory inference
    returns [/home/u/app]: the [node_modules] rule, first in the list,
    captures that path.  In general the loop returns the capture of the
    first rule of the ordered list that matches, with a trailing slash
    removed from the capture. *)
Theorem inferDirectory_node_modules :
  inferDirectory "node /home/u/app/node_modules/.bin/nuxt dev"
    = Some "/home/u/app"
  /\ ruleCapture "node /home/u/app/node_modules/.bin/nuxt dev"
       pattern_node_modules = Some "/home/u/app"
  /\ (forall command,
        inferDirectory command
        = stripTrailingSlash <$> firstMatchingRule command nuxtPatterns)
  /\ (forall path, stripTrailingSlash (path ++ "/") = path).
Proof.
  split; [vm_compute; reflexivity|].
  split; [vm_compute; reflexivity|].
  split.
  - intros command. apply firstCapture_refines.
  - apply stripTrailingSlash_slash.
Qed.

(** The claim as the spec words it does not hold: a command line that
    contains [-C /srv/proj] without [npx nuxi] before it matches no
    rule, and one that continues the path is captured whole. *)
Lemma inferDirectory_dash_C_needs_nuxi :
  ~ (forall command,
       includes command "-C /srv/proj" = true ->
       inferDirectory command = Some "/srv/proj").
Proof.
  intros H. specialize (H "node server.js -C /srv/proj").
  vm_compute in H. specialize (H eq_refl). discriminate.
Qed.

Example inferDirectory_dash_C_longer_path :
  includes "npx nuxi dev -C /srv/projects" "-C /srv/proj" = true
  /\ inferDirectory "npx nuxi dev -C /srv/projects" = Some "/srv/projects".
Proof. split; vm_compute; reflexivity. Qed.

(** When neither of the two [node] rules matches the command line and
    the [npx nuxi ... -C <path>] rule captures [/srv/proj] or
    [/srv/proj/], directory inference returns [/srv/proj], without a
    trailing slash. *)
Theorem inferDirectory_nuxi_dash_C (command g : string) :
  ruleCapture command pattern_node_modules = None ->
  ruleCapture command pattern_dot_nuxt = None ->
  ruleCapture command pattern_nuxi_C = Some g ->
  g = "/srv/proj" \/ g = "/srv/proj/" ->
  inferDirectory command = Some "/srv/proj".
Proof.
  intros H1 H2 H3 Hg. unfold inferDirectory, nuxtPatterns.
  rewrite firstCapture_refines. cbn [firstMatchingRule].
  rewrite H1, H2, H3. cbn [fmap option_fmap option_map].
  destruct Hg as [-> | ->].
  - vm_compute; reflexivity.
  - change "/srv/proj/" with ("/srv/proj" ++ "/").
    now rewrite stripTrailingSlash_slash.
Qed.

Lemma inferDirectory_nuxi_dash_C_witness :
  inferDirectory "npx nuxi dev -C /srv/proj/" = Some "/srv/proj".
Proof.
  apply (inferDirectory_nuxi_dash_C "npx nuxi dev -C /srv/proj/" "/srv/proj/").
  - vm_compute; reflexivity.
  - vm_compute; reflexivity.
  - vm_compute; reflexivity.
  - right; reflexivity.
Defined.

Section WithEnv.
Variable env : Env.

Lemma lsofFallback_total (pid : string) (dir : option string) :
  exists dir', lsofFallback env pid dir = Ok dir'.
Proof.
  unfold lsofFallback. destruct (negb (truthy_opt dir)); [|eauto].
  destruct (execSync env (lsofCommand pid)) as [out|e]; cbn; [|eauto].
  destruct (firstNameLine _); cbn; eauto.
Qed.

Lemma readManifest_total (dir : string) :
  exists info, readManifest env dir = Ok info.
Proof.
  unfold readManifest. destruct (existsSync env _); [|eauto].
  match goal with |- exists _, try_catch ?b _ = _ => destruct b end;
    cbn; eauto.
Qed.

Lemma readGitRemote_total (dir : string) (info : option ProjectInfo) :
  exists info', readGitRemote env dir info = Ok info'.
Proof.
  unfold readGitRemote. destruct info as [pi|]; [|eauto].
  destruct (negb _); [|eauto].
  destruct (existsSync env _); [|eauto].
  match goal with |- exists _, try_catch ?b _ = _ => destruct b end;
    cbn; eauto.
Qed.

Lemma sampleResources_total (pid : string) :
  exists usage, sampleResources env pid = Ok usage.
Proof.
  unfold sampleResources.
  match goal with |- exists _, try_catch ?b _ = _ => destruct b end;
    cbn; eauto.
Qed.

Lemma getProjectInfo_total (pid command : string) :
  exists details, getProjectInfo env pid command = Ok details.
Proof.
  unfold getProjectInfo.
  match goal with |- exists _, try_catch ?b _ = _ => destruct b end;
    cbn; eauto.
Qed.


Lemma readManifest_read_failure (dir e : string) :
  readFileSync env (path_join env [dir; "package.json"]) = Throw e ->
  readManifest env dir = Ok None.
Proof.
  intros H. unfold readManifest. rewrite H.
  now destruct (existsSync env _).
Qed.

Lemma readManifest_parse_failure (dir text e : string) :
  readFileSync env (path_join env [dir; "package.json"]) = Ok text ->
  JSON_parse env text = Throw e ->
  readManifest env dir = Ok None.
Proof.
  intros H1 H2. unfold readManifest. rewrite H1. cbn. rewrite H2.
  now destruct (existsSync env _).
Qed.

Lemma readManifest_null (dir text : string) :
  readFileSync env (path_join env [dir; "package.json"]) = Ok text ->
  JSON_parse env text = Ok JNull ->
  readManifest env dir = Ok None.
Proof.
  intros H1 H2. unfold readManifest. rewrite H1. cbn. rewrite H2.
  now destruct (existsSync env _).
Qed.




(** C10. When directory inference fails (no rule yields a usable
    path and the [lsof] fallback, if it answers at all, names no
    directory) the resolver returns the empty result: memory and CPU
    are absent too, whatever the [ps] query for that process would
    answer, because the sample is only taken after a directory has
    been found. *)
Theorem unresolved_directory_no_resources (pid command : string) :
  truthy_opt (inferDirectory command) = false ->
  (forall out, execSync env (lsofCommand pid) = Ok out ->
               truthy_opt (firstNameLine (lines (trim out))) = false) ->
  exists details,
    getProjectInfo env pid command = Ok details
    /\ cwd details = None /\ projectInfo details = None
    /\ memory details = None /\ cpu details = None.
Proof.
  intros Hinfer Hlsof. exists no_details.
  split; [|repeat split].
  unfold getProjectInfo, lsofFallback.
  generalize dependent (inferDirectory command). intros dir0 Hinfer.
  rewrite Hinfer. cbn.
  destruct (execSync env (lsofCommand pid)) as [out|e] eqn:Eout; cbn.
  - specialize (Hlsof out eq_refl).
    destruct (firstNameLine (lines (trim out))) as [d|]; cbn.
    + cbn in Hlsof. now rewrite Hlsof.
    + destruct dir0 as [d|]; [|reflexivity].
      cbn in Hinfer. now rewrite Hinfer.
  - destruct dir0 as [d|]; [|reflexivity].
    cbn in Hinfer. now rewrite Hinfer.
Qed.

End WithEnv.

Lemma unresolved_directory_no_resources_witness :
  sampleResources env_ps_only "4242"
    = Ok (Some "2 MB", Some "1.5%")
  /\ exists details,
       getProjectInfo env_ps_only "4242" "node server.js" = Ok details
       /\ cwd details = None /\ projectInfo details = None
       /\ memory details = None /\ cpu details = None.
Proof.
  split; [vm_compute; reflexivity|].
  apply (unresolved_directory_no_resources env_ps_only "4242" "node server.js").
  - vm_compute; reflexivity.
  - intros out H. vm_compute in H. discriminate.
Defined.



(** The fields are optional independently of one another: with the
    directory found, project information and resource usage are each
    present or absent whatever the other is. *)
Example getProjectInfo_fields_independent :
  getProjectInfo Fixtures.env_project "4242" "node server.js"
  = Ok (MkDetails (Some "/srv/app")
          (Some (MkProjectInfo (JStr "app") (JStr "1.2.3")
                   (JStr "git@github.com:a/b.git")))
          (Some "50 MB") (Some "2.0%"))
  /\ getProjectInfo Fixtures.env_project_no_ps "4242" "node server.js"
     = Ok (MkDetails (Some "/srv/app")
             (Some (MkProjectInfo (JStr "app") (JStr "1.2.3")
                      (JStr "git@github.com:a/b.git")))
             None None)
  /\ getProjectInfo env_ps_only "4242" "npx nuxi dev -C /srv/app"
     = Ok (MkDetails (Some "/srv/app") None (Some "2 MB") (Some "1.5%"))
  /\ getProjectInfo Fixtures.env_failing "4242" "npx nuxi dev -C /srv/app"
     = Ok (MkDetails (Some "/srv/app") None None None)
  /\ getProjectInfo Fixtures.env_failing "4242" "node server.js"
     = Ok no_details.
Proof. repeat split; vm_compute; reflexivity. Qed.

(** With a directory in the command line the same environment gives a
    partial result: no manifest, but memory and CPU. *)
Example getProjectInfo_partial :
  getProjectInfo env_ps_only "4242"
      "node /home/u/app/node_modules/.bin/nuxt dev"
  = Ok (MkDetails (Some "/home/u/app") None
          (Some "2 MB") (Some "1.5%")).
Proof. vm_compute; reflexivity. Qed.

End ResolverProps.

(** ** Port Scanner and Process Classifier *)

Module ScannerProps.
Import JsString Regex Scanner ScannerSpec JsStringFacts.

Lemma drop_spaces_all_space (s : string) :
  all_space s = true -> drop_spaces s = "".
Proof.
  unfold all_space. induction s as [|c s IH]; cbn; [reflexivity|].
  intros [Hc Hs]%andb_true_iff. rewrite Hc. auto.
Qed.

Lemma trim_all_space (s : string) : all_space s = true -> trim s = "".
Proof. intros H. unfold trim. now rewrite (drop_spaces_all_space s H). Qed.

(** C8. When the port-scanner command fails or prints nothing but
    white space, the scan yields the empty list of candidates. *)
Theorem nuxtProcesses_blank_scan (lsofData psData : option string) :
  blankOutput lsofData = true ->
  nuxtProcesses lsofData psData = [].
Proof.
  destruct lsofData as [text|]; cbn; [|reflexivity].
  intros H. rewrite (trim_all_space text H). cbn.
  now rewrite orb_true_r.
Qed.

Lemma nuxtProcesses_blank_scan_witness :
  nuxtProcesses (Some (String " " (String "010" " "))) (Some "x 1 nuxt") = []
  /\ nuxtProcesses None None = [].
Proof.
  split.
  - apply nuxtProcesses_blank_scan. vm_compute; reflexivity.
  - apply nuxtProcesses_blank_scan. reflexivity.
Defined.

Lemma classifyLines_no_pid (pid command : string) (psLines : list string) :
  (forall psLine, In psLine psLines -> includes psLine pid = false) ->
  classifyLines pid command psLines = (false, command).
Proof.
  induction psLines as [|l rest IH]; intros H; cbn; [reflexivity|].
  rewrite (H l (or_introl eq_refl)).
  apply IH. intros psLine Hin. apply H. now right.
Qed.

(** The claim as the spec words it does not hold: the classifier looks
    for the process id anywhere in a line, not among its tokens, so
    the line of process 1234 vouches for candidate 123. *)
Lemma classify_substring_not_token :
  ~ (forall text pid port,
       (forall psLine, In psLine (lines text) -> ~ In pid (split_ws psLine)) ->
       fst (classify (Some text) pid port) = false).
Proof.
  intros H.
  specialize (H "root 1234 0.0 0.1 100 200 ?? S 10:00 0:00 node /app/node_modules/.bin/nuxt dev"
                "123" "3000").
  assert (fst (classify
                 (Some "root 1234 0.0 0.1 100 200 ?? S 10:00 0:00 node /app/node_modules/.bin/nuxt dev")
                 "123" "3000") = true) as Hm by (vm_compute; reflexivity).
  rewrite H in Hm; [discriminate|].
  intros psLine [<-|[]]. vm_compute.
  intros Hin. repeat (destruct Hin as [Hin|Hin]; [discriminate|]).
  exact Hin.
Qed.

(** C3, at the input on which the code departs from it: the loop looks
    for the process id anywhere in a line ([psLine.includes(pid)]), so
    for candidate 123 the line of process 1234, in which 123 is no
    token, is taken for its own: the candidate is reported as a match
    and carries the command of process 1234. *)
Theorem classify_pid_inside_longer_pid :
  ~ In "123"
      (split_ws "root 1234 0.0 0.1 100 200 ?? S 10:00 0:00 node /app/node_modules/.bin/nuxt dev")
  /\ classify
       (Some "root 1234 0.0 0.1 100 200 ?? S 10:00 0:00 node /app/node_modules/.bin/nuxt dev")
       "123" "3000"
     = (true, "node /app/node_modules/.bin/nuxt dev")
  /\ nuxtProcesses (Some "123 *:3000")
       (Some "root 1234 0.0 0.1 100 200 ?? S 10:00 0:00 node /app/node_modules/.bin/nuxt dev")
     = [MkProcess "123" "3000" "node /app/node_modules/.bin/nuxt dev"].
Proof.
  split; [|split; vm_compute; reflexivity].
  vm_compute. intros Hin.
  repeat (destruct Hin as [Hin|Hin]; [discriminate|]). exact Hin.
Qed.

(** Where the process id occurs in no line at all the code agrees with
    the claim: for every non-empty process-table text none of whose
    lines contains the process id, the classifier returns no match and
    leaves the placeholder command; when the text is unavailable
    ([undefined]) or empty, which the guard [if (psData)] treats alike,
    every candidate is accepted with the placeholder command
    [Node.js server on port <port>]. *)
Theorem classify_without_pid (psData : option string) (pid port : string) :
  (forall text,
      psData = Some text ->
      JsString.truthy text = true ->
      (forall psLine, In psLine (lines text) -> includes psLine pid = false) ->
      classify psData pid port = (false, "Node.js server on port " ++ port))
  /\ (truthy_opt psData = false ->
      classify psData pid port = (true, "Node.js server on port " ++ port)).
Proof.
  split.
  - intros text -> Ht Hlines. unfold classify. cbn [truthy_opt].
    rewrite Ht. now apply classifyLines_no_pid.
  - intros H. unfold classify. now rewrite H.
Qed.

Lemma classify_without_pid_witness :
  classify (Some "root 99 0.0 0.1 100 200 ?? S 10:00 0:00 node nuxt dev")
           "1234" "3000"
    = (false, "Node.js server on port 3000")
  /\ classify None "1234" "3000" = (true, "Node.js server on port 3000")
  /\ classify (Some "") "1234" "3000" = (true, "Node.js server on port 3000").
Proof.
  split; [|split].
  - apply (proj1 (classify_without_pid
                    (Some "root 99 0.0 0.1 100 200 ?? S 10:00 0:00 node nuxt dev")
                    "1234" "3000") _ eq_refl).
    + reflexivity.
    + intros psLine [<-|[]]. vm_compute; reflexivity.
  - apply (proj2 (classify_without_pid None "1234" "3000")). reflexivity.
  - apply (proj2 (classify_without_pid (Some "") "1234" "3000")). reflexivity.
Defined.

(** C4, at the input on which the code departs from it: for an IPv6
    listener the first colon followed by a digit is inside the
    address, and the port reported is [1], not [3000]. *)
Theorem parseLine_ipv6_listener :
  parseLine "4242 [::1]:3000" = Some ("4242", "1")
  /\ nuxtProcesses (Some "4242 [::1]:3000") None
     = [MkProcess "4242" "1" "Node.js server on port 1"].
Proof. split; vm_compute; reflexivity. Qed.

(** Where the address has a single colon, followed by digits to its end
    (the forms [*:3000] and [localhost:3000] of the source comment), the
    match is the trailing one and group 1 is the port. *)
Lemma star_greedy_every (k : cclass) (digits : string) :
  every (cmatch k) digits = true ->
  forall (cont : string -> option outcome) (r : outcome),
    cont "" = Some r -> star Greedy k cont digits = Some r.
Proof.
  induction digits as [|c digits IH]; cbn; intros H cont r Hr; [exact Hr|].
  apply andb_true_iff in H as [Hc Hds]. rewrite Hc.
  now rewrite (IH Hds cont r Hr).
Qed.

Lemma match_here_port (d : ascii) (digits : string) :
  is_digit d = true ->
  every is_digit digits = true ->
  match_here pattern_port (String ":" (String d digits))
  = Some (Some (String d digits), "").
Proof.
  intros Hd Hds. unfold match_here, pattern_port. cbn [run strip_prefix].
  rewrite Ascii.eqb_refl. cbn [cmatch]. rewrite Hd.
  apply star_greedy_every; [exact Hds|].
  change (String.length "") with 0.
  now rewrite Nat.sub_0_r, (take_all (String d digits)).
Qed.

Lemma match_here_port_no_colon (c : ascii) (rest : string) :
  Ascii.eqb c ":" = false -> match_here pattern_port (String c rest) = None.
Proof.
  intros Hc. unfold match_here, pattern_port. cbn [run strip_prefix].
  now rewrite Ascii.eqb_sym, Hc.
Qed.

Lemma port_of_single_colon_address (host : string) (d : ascii)
    (digits : string) :
  no_colon host = true ->
  is_digit d = true ->
  every is_digit digits = true ->
  str_match (host ++ String ":" (String d digits)) pattern_port
  = Some (MkMatch (String.length host) (String ":" (String d digits))
            (Some (String d digits))).
Proof.
  intros Hhost Hd Hds. unfold str_match.
  change (String.length host) with (0 + String.length host).
  generalize 0 as idx. unfold no_colon in Hhost.
  induction host as [|c host IH]; intros idx.
  - rewrite app_nil_l. cbn [search]. rewrite (match_here_port d digits Hd Hds).
    change (String.length "") with 0. rewrite Nat.sub_0_r, Nat.add_0_r.
    now rewrite (take_all (String ":" (String d digits))).
  - cbn in Hhost. apply andb_true_iff in Hhost as [Hc Hrest].
    apply negb_true_iff in Hc.
    rewrite app_cons. cbn [search].
    rewrite (match_here_port_no_colon c _ Hc), (IH Hrest).
    cbn [String.length]. do 2 f_equal. lia.
Qed.

Lemma parseLine_few_tokens (line : string) :
  length (split_ws (trim line)) < 2 -> parseLine line = None.
Proof.
  unfold parseLine. destruct (split_ws (trim line)) as [|a [|b l]]; cbn;
    [reflexivity | reflexivity | lia].
Qed.

Lemma parseLine_no_port (line pid address : string) (rest : list string) :
  split_ws (trim line) = pid :: address :: rest ->
  str_match address pattern_port = None ->
  parseLine line = None.
Proof. intros Hs Hm. unfold parseLine. now rewrite Hs, Hm. Qed.

Lemma scanLines_skip (psData : option string) (line : string)
    (rest : list string) :
  parseLine line = None ->
  scanLines psData (line :: rest) = scanLines psData rest.
Proof. intros H. cbn [scanLines]. now rewrite H. Qed.

(** On the two address forms the source comment names, the port is the
    one after the colon, and malformed lines are skipped. *)
Example parseLine_documented_forms :
  parseLine "12345 localhost:3000" = Some ("12345", "3000")
  /\ parseLine "12345 *:3000" = Some ("12345", "3000")
  /\ parseLine "12345" = None
  /\ parseLine "12345 localhost" = None
  /\ parseLine "12345 host:abc" = None.
Proof. repeat split; vm_compute; reflexivity. Qed.

End ScannerProps.

(** ** Repository URL clean-up *)

Module RepoUrlProps.
Import JsString Regex RepoUrl JsStringFacts RegexFacts.

Lemma app_assoc (a b c : string) : (a ++ b) ++ c = a ++ (b ++ c).
Proof.
  induction a as [|x a IH]; rewrite ?app_nil_l, ?app_cons;
    [reflexivity | now f_equal].
Qed.







(** The SSH rewrite is the [github.com] one; another host keeps its
    SSH form and only loses the suffix. *)
Example normalize_other_host :
  normalize "git@gitlab.com:a/b.git" = "git@gitlab.com:a/b".
Proof. vm_compute; reflexivity. Qed.

End RepoUrlProps.

(** ** Correlation Store *)

Module StoreProps.
Import Store StoreSpec.

Lemma has_true (m : gmap string ResolvedDetails) (k : string) :
  has m k = true <-> k ∈ dom m.
Proof. unfold has. now rewrite bool_decide_eq_true, elem_of_dom. Qed.

Lemma has_false (m : gmap string ResolvedDetails) (k : string) :
  has m k = false <-> k ∉ dom m.
Proof. rewrite <- has_true. destruct (has m k); naive_solver. Qed.

Lemma elem_of_keys (m : gmap string ResolvedDetails) (k : string) :
  k ∈ keys m <-> k ∈ dom m.
Proof.
  unfold keys. rewrite list_elem_of_fmap, elem_of_dom. split.
  - intros [[k' v] [-> H]]. apply elem_of_map_to_list in H. eauto.
  - intros [v H]. exists (k, v). split; [done|].
    now apply elem_of_map_to_list.
Qed.

Lemma existsb_false {A : Type} (f : A -> bool) (l : list A) :
  existsb f l = false <-> forall x, x ∈ l -> f x = false.
Proof.
  induction l as [|a l IH]; cbn.
  - split; [|done]. intros _ x Hx. inversion Hx.
  - rewrite orb_false_iff, IH. split.
    + intros [Ha Hl] x Hx. inversion Hx; subst; auto.
    + intros H. split; [apply H; left | intros x Hx; apply H; now right].
Qed.

(** The first scan of the effect: no process is missing from the map. *)
Lemma no_new_process (procs : list NuxtProcess)
    (m : gmap string ResolvedDetails) :
  existsb (fun process => negb (has m (pid process))) procs = false
  <-> list_to_set (pid <$> procs) ⊆@{gset string} dom m.
Proof.
  rewrite existsb_false. split.
  - intros H k Hk. apply elem_of_list_to_set, list_elem_of_fmap in Hk.
    destruct Hk as [p [-> Hp]]. apply has_true.
    specialize (H p Hp). now apply negb_false_iff in H.
  - intros H p Hp. apply negb_false_iff, has_true, H.
    apply elem_of_list_to_set, list_elem_of_fmap. eauto.
Qed.

(** The second scan: no key of the map is missing from the poll. *)
Lemma no_stale_key (active : gset string) (m : gmap string ResolvedDetails) :
  existsb (fun k => negb (bool_decide (k ∈ active))) (keys m) = false
  <-> dom m ⊆ active.
Proof.
  rewrite existsb_false. split.
  - intros H k Hk. apply elem_of_keys in Hk. specialize (H k Hk).
    apply negb_false_iff in H. now apply bool_decide_eq_true in H.
  - intros H k Hk. apply negb_false_iff, bool_decide_eq_true, H.
    now apply elem_of_keys.
Qed.

Section WithEnv.
Variable env : Env.

Lemma fetchNew_fetched (procs : list NuxtProcess) :
  forall (newDetails : gmap string ResolvedDetails) (log : list call),
  exists after log',
    fetchNew env procs newDetails log = Ok (after, (log ++ log')%list)
    /\ fetched env procs newDetails after log'.
Proof.
  induction procs as [|p procs IH]; intros newDetails log.
  - exists newDetails, []. cbn. rewrite app_nil_r. split; [done|].
    split.
    + cbn. set_solver.
    + done.
    + intros c Hc. now apply elem_of_nil in Hc.
    + constructor.
    + intros k Hk Hk'. done.
  - cbn [fetchNew]. destruct (has newDetails (pid p)) eqn:Ehas; cbn [negb].
    + apply has_true in Ehas.
      destruct (IH newDetails log)
        as (after & log' & Hrun & [Hdom Hkept Hcalls Honce Hnew]).
      exists after, log'. split; [done|]. split.
      * rewrite Hdom. cbn. set_solver.
      * done.
      * intros c Hc. destruct (Hcalls c Hc) as [? (q & ? & ?)].
        split; [done|]. exists q. split; [now right | done].
      * done.
      * done.
    + apply has_false in Ehas.
      destruct (ResolverProps.getProjectInfo_total env (pid p) (command p))
        as [info Hinfo].
      rewrite Hinfo. cbn.
      destruct (IH (<[pid p := info]> newDetails)
                   (log ++ [(pid p, command p)])%list)
        as (after & log' & Hrun & [Hdom Hkept Hcalls Honce Hnew]).
      exists after, ((pid p, command p) :: log').
      split.
      { rewrite Hrun. now rewrite <- List.app_assoc. }
      split.
      * rewrite Hdom, dom_insert_L. cbn. set_solver.
      * intros k Hk. rewrite Hkept.
        -- apply lookup_insert_ne. intros <-. done.
        -- rewrite dom_insert_L. set_solver.
      * intros c Hc. apply elem_of_cons in Hc as [-> | Hc].
        -- split; [done|]. exists p. split; [left | done].
        -- destruct (Hcalls c Hc) as [Hn (q & ? & ?)].
           split.
           ++ rewrite dom_insert_L in Hn. set_solver.
           ++ exists q. split; [now right | done].
      * cbn. constructor; [|done].
        intros Hin. apply list_elem_of_fmap in Hin as [c [Hc1 Hc]].
        destruct (Hcalls c Hc) as [Hn _].
        rewrite dom_insert_L in Hn. set_solver.
      * intros k Hk Hk'. destruct (decide (k = pid p)) as [-> | Hne].
        -- exists (command p), info. split; [left|]. split; [done|].
           rewrite Hkept.
           ++ apply lookup_insert_eq.
           ++ rewrite dom_insert_L. set_solver.
        -- destruct (Hnew k Hk) as (cmd & i & ? & ? & ?).
           { rewrite dom_insert_L. set_solver. }
           exists cmd, i. split; [now right | done].
Qed.

Lemma reconcile_steady (procs : list NuxtProcess)
    (store : gmap string ResolvedDetails) :
  dom store = list_to_set (pid <$> procs) ->
  reconcile env procs store = Ok (MkEffect None []).
Proof.
  intros Hdom. unfold reconcile. destruct procs as [|p procs].
  - cbn in Hdom. apply dom_empty_inv_L in Hdom as ->.
    cbn. now rewrite map_size_empty.
  - cbn [length Nat.eqb].
    assert (existsb (fun process => negb (has store (pid process)))
                    (p :: procs) = false) as ->.
    { apply no_new_process. now rewrite Hdom. }
    assert (existsb
              (fun k => negb (bool_decide
                 (k ∈@{gset string} list_to_set (pid <$> p :: procs))))
              (keys store) = false) as ->.
    { apply no_stale_key. now rewrite Hdom. }
    reflexivity.
Qed.

Lemma reconcile_reconciled (procs : list NuxtProcess)
    (store : gmap string ResolvedDetails) :
  exists e, reconcile env procs store = Ok e /\ reconciled env procs store e.
Proof.
  unfold reconcile. destruct procs as [|p procs].
  - cbn [length Nat.eqb]. destruct (0 <? size store) eqn:Esz.
    + eexists; split; [reflexivity|].
      split; unfold storeAfter; cbn.
      * set_solver.
      * intros k _. apply lookup_empty.
      * intros k Hk. set_solver.
      * intros c Hc. now apply elem_of_nil in Hc.
      * constructor.
      * intros k Hk. set_solver.
    + apply Nat.ltb_ge in Esz.
      assert (store = ∅) as ->.
      { apply map_size_empty_inv. lia. }
      eexists; split; [reflexivity|].
      split; unfold storeAfter; cbn.
      * set_solver.
      * intros k _. apply lookup_empty.
      * done.
      * intros c Hc. now apply elem_of_nil in Hc.
      * constructor.
      * intros k Hk. set_solver.
  - cbn [length Nat.eqb].
    set (active := list_to_set (pid <$> p :: procs) : gset string).
    destruct (existsb (fun process => negb (has store (pid process)))
                      (p :: procs)
              || existsb (fun k => negb (bool_decide (k ∈ active)))
                         (keys store)) eqn:Eupd; cbn [negb].
    + set (kept := filter (fun kv => kv.1 ∈ active) store).
      destruct (fetchNew_fetched (p :: procs) kept [])
        as (after & log & Hrun & [Hdom Hkept Hcalls Honce Hnew]).
      rewrite Hrun. cbn. eexists; split; [reflexivity|].
      assert (forall k, k ∈ dom kept <-> k ∈ dom store /\ k ∈ active)
        as Hk.
      { intros k. unfold kept. rewrite !elem_of_dom. split.
        - intros [d Hd]. apply map_lookup_filter_Some in Hd as [Hd Ha].
          split; [eauto | exact Ha].
        - intros [[d Hd] Ha]. exists d.
          apply map_lookup_filter_Some. split; [exact Hd | exact Ha]. }
      assert (dom after = active) as Hafter.
      { rewrite Hdom. fold active. apply set_eq. intros k.
        rewrite elem_of_union, Hk. tauto. }
      split; unfold storeAfter; cbn; fold active.
      * exact Hafter.
      * intros k Hnk. apply not_elem_of_dom. now rewrite Hafter.
      * intros k Ha Hs. rewrite Hkept by (apply Hk; tauto).
        unfold kept. destruct (store !! k) as [d|] eqn:Ed.
        -- apply map_lookup_filter_Some. split; [exact Ed | exact Ha].
        -- apply not_elem_of_dom in Ed. contradiction.
      * intros c Hc. destruct (Hcalls c Hc) as [Hn (q & Hq & ->)].
        split; [|eauto]. cbn [fst] in *. intros Hs. apply Hn, Hk.
        split; [exact Hs|]. unfold active.
        apply elem_of_list_to_set, list_elem_of_fmap. eauto.
      * exact Honce.
      * intros k Ha Hs. apply Hnew.
        -- now rewrite Hafter.
        -- intros Hin. apply Hk in Hin. tauto.
    + apply orb_false_iff in Eupd as [Enew Estale].
      apply no_new_process in Enew. apply no_stale_key in Estale.
      assert (dom store = active) as Hdom by set_solver.
      eexists; split; [reflexivity|].
      split; unfold storeAfter; cbn; fold active.
      * exact Hdom.
      * intros k Hnk. apply not_elem_of_dom. now rewrite Hdom.
      * done.
      * intros c Hc. now apply elem_of_nil in Hc.
      * constructor.
      * intros k Ha Hs. rewrite Hdom in Hs. contradiction.
Qed.

(** C1. A poll whose process ids are exactly the keys of the store
    makes no [getProjectInfo] call and does not replace the store:
    the effect returns before [setProcessDetails]. *)
Theorem reconcile_idempotent (procs : list NuxtProcess)
    (store : gmap string ResolvedDetails) :
  dom store = list_to_set (pid <$> procs) ->
  exists e,
    reconcile env procs store = Ok e
    /\ calls e = [] /\ updated e = None /\ storeAfter store e = store.
Proof.
  intros Hdom. exists (MkEffect None []).
  split; [now apply reconcile_steady | repeat split].
Qed.

(** Running the effect a second time on the same poll does nothing. *)
Lemma reconcile_twice (procs : list NuxtProcess)
    (store : gmap string ResolvedDetails) (e : effect) :
  reconcile env procs store = Ok e ->
  reconcile env procs (storeAfter store e) = Ok (MkEffect None []).
Proof.
  intros Hrun. apply reconcile_steady.
  destruct (reconcile_reconciled procs store) as (e' & He' & [Hdom _ _ _ _ _]).
  rewrite Hrun in He'. injection He' as ->. exact Hdom.
Qed.

(** C2. After every run of the effect the keys of the store are
    exactly the process ids of the poll: an id absent from the poll
    (every id, when the poll is empty) has no entry, an id present
    in both the poll and the previous store keeps its details
    unchanged, and [getProjectInfo] is called only for ids of the
    poll that the previous store did not hold, once each, its
    result becoming the new entry. *)
Theorem reconcile_keys_are_poll (procs : list NuxtProcess)
    (store : gmap string ResolvedDetails) :
  exists e,
    reconcile env procs store = Ok e
    /\ dom (storeAfter store e) = list_to_set (pid <$> procs)
    /\ (forall k, k ∉@{gset string} list_to_set (pid <$> procs) ->
                  storeAfter store e !! k = None)
    /\ (forall k, k ∈@{gset string} list_to_set (pid <$> procs) ->
                  k ∈ dom store ->
                  storeAfter store e !! k = store !! k)
    /\ (forall c, c ∈ calls e ->
                  (c.1 ∉ dom store)
                  /\ (exists process,
                         process ∈ procs
                         /\ c = (pid process, command process)))
    /\ NoDup (calls e).*1
    /\ (forall k, k ∈@{gset string} list_to_set (pid <$> procs) ->
                  k ∉ dom store ->
                  exists cmd info,
                    (k, cmd) ∈ calls e
                    /\ Resolver.getProjectInfo env k cmd = Ok info
                    /\ storeAfter store e !! k = Some info).
Proof.
  destruct (reconcile_reconciled procs store) as (e & He & H).
  exists e. split; [exact He|]. destruct H as [H1 H2 H3 H4 H5 H6].
  repeat split; try assumption.
  - now apply H4.
  - now apply H4.
Qed.

End WithEnv.

Lemma reconcile_idempotent_witness :
  exists e,
    reconcile ResolverSpec.env_ps_only
      [MkProcess "4242" "3000" "node server.js"]
      {[ "4242" := no_details ]} = Ok e
    /\ calls e = [] /\ updated e = None
    /\ storeAfter {[ "4242" := no_details ]} e = {[ "4242" := no_details ]}.
Proof.
  apply (reconcile_idempotent ResolverSpec.env_ps_only
           [MkProcess "4242" "3000" "node server.js"]
           {[ "4242" := no_details ]}).
  cbn. set_solver.
Defined.

(** Process 4242 was resolved by an earlier poll and is gone from this
    one, which sees 5151 instead. *)
Lemma reconcile_keys_are_poll_witness :
  exists e,
    reconcile ResolverSpec.env_ps_only
      [MkProcess "5151" "3001" "node server.js"]
      {[ "4242" := no_details ]} = Ok e
    /\ storeAfter {[ "4242" := no_details ]} e !! "4242" = None.
Proof.
  destruct (reconcile_keys_are_poll ResolverSpec.env_ps_only
              [MkProcess "5151" "3001" "node server.js"]
              {[ "4242" := no_details ]})
    as (e & He & _ & Hremoved & _).
  exists e. split; [exact He|].
  apply Hremoved. cbn. clear.
  intros [H%elem_of_singleton | H%elem_of_empty]%elem_of_union;
    [discriminate | exact H].
Defined.

(** Two polls in a row, run on concrete data: the first resolves the
    new process, the second finds nothing to do. *)
Example reconcile_first_poll :
  reconcile ResolverSpec.env_ps_only
    [MkProcess "4242" "3000" "node /home/u/app/node_modules/.bin/nuxt dev"]
    ∅
  = Ok (MkEffect
          (Some {[ "4242" := MkDetails (Some "/home/u/app") None
                               (Some "2 MB") (Some "1.5%") ]})
          [("4242", "node /home/u/app/node_modules/.bin/nuxt dev")]).
Proof. vm_compute; reflexivity. Qed.

End StoreProps.

(** ** What a match can read and capture *)

Module RegexSound.
Import JsString Regex ScannerSpec RegexSpec JsStringFacts RegexFacts.
Local Open Scope regex_scope.

Lemma string_app_assoc (a b c : string) : (a ++ b) ++ c = a ++ (b ++ c).
Proof.
  induction a as [|x a IH]; rewrite ?app_nil_l, ?app_cons;
    [reflexivity | now f_equal].
Qed.

Lemma every_app (f : ascii -> bool) (a b : string) :
  every f (a ++ b) = every f a && every f b.
Proof.
  induction a as [|c a IH]; rewrite ?app_nil_l, ?app_cons; cbn;
    [reflexivity | now rewrite IH, andb_assoc].
Qed.

Lemma every_impl (f h : ascii -> bool) (s : string) :
  (forall c, f c = true -> h c = true) ->
  every f s = true -> every h s = true.
Proof.
  intros Hfh. induction s as [|c s IH]; cbn; [reflexivity|].
  intros [Hc Hs]%andb_true_iff. now rewrite (Hfh c Hc), IH.
Qed.

Lemma every_take (f : ascii -> bool) (n : nat) (s : string) :
  every f s = true -> every f (take n s) = true.
Proof.
  revert n; induction s as [|c s IH]; intros [|n]; cbn; try reflexivity.
  intros [Hc Hs]%andb_true_iff. now rewrite Hc, IH.
Qed.

Lemma take_add (n m : nat) (s : string) :
  take (n + m) s = take n s ++ take m (drop n s).
Proof.
  revert s; induction n as [|n IH]; intros s; cbn.
  - now rewrite app_nil_l.
  - destruct s as [|c s]; cbn.
    + now destruct m.
    + now rewrite app_cons, IH.
Qed.

Lemma drop_add (n m : nat) (s : string) :
  drop (n + m) s = drop m (drop n s).
Proof.
  revert s; induction n as [|n IH]; intros s; cbn; [reflexivity|].
  destruct s as [|c s]; cbn; [now destruct m | apply IH].
Qed.

Lemma length_drop (n : nat) (s : string) :
  String.length (drop n s) = String.length s - n.
Proof.
  revert s; induction n as [|n IH]; intros s; cbn; [lia|].
  destruct s as [|c s]; cbn; [reflexivity | apply IH].
Qed.

Lemma take_nonempty (n : nat) (s : string) :
  1 <= n -> n <= String.length s -> take n s <> "".
Proof. destruct n, s; cbn; intros; (lia || discriminate). Qed.

(** Whatever a repetition hands to its continuation, it has read a
    prefix made of code units of its class. *)
Lemma star_inv (q : quant) (k : cclass) (cont : string -> option outcome)
    (s : string) (o : outcome) :
  star q k cont s = Some o ->
  exists n, n <= String.length s
            /\ every (cmatch k) (take n s) = true
            /\ cont (drop n s) = Some o.
Proof.
  induction s as [|c s IH]; cbn.
  - intros H. exists 0. now repeat split.
  - assert (cont (String c s) = Some o ->
            exists n, n <= S (String.length s)
                      /\ every (cmatch k) (take n (String c s)) = true
                      /\ cont (drop n (String c s)) = Some o) as Hzero.
    { intros H. exists 0. repeat split; [lia | exact H]. }
    assert (cmatch k c = true -> star q k cont s = Some o ->
            exists n, n <= S (String.length s)
                      /\ every (cmatch k) (take n (String c s)) = true
                      /\ cont (drop n (String c s)) = Some o) as Hsucc.
    { intros Hc H. destruct (IH H) as (n & Hn & He & Hk).
      exists (S n). cbn. rewrite Hc, He. repeat split; [lia | exact Hk]. }
    destruct q.
    + destruct (cmatch k c) eqn:Hc; [|exact Hzero].
      destruct (star Greedy k cont s) as [r|] eqn:Hs; [|exact Hzero].
      intros [= ->]. now apply Hsucc.
    + destruct (cont (String c s)) as [r|] eqn:Hk.
      * intros [= ->]. now apply Hzero.
      * destruct (cmatch k c) eqn:Hc; [|discriminate]. now apply Hsucc.
Qed.

Lemma reads_only_inv (f : ascii -> bool) (r : regex) :
  reads_only f r ->
  forall g s cont o,
    run r g s cont = Some o ->
    exists n, min_len r <= n /\ n <= String.length s
              /\ every f (take n s) = true
              /\ cont g (drop n s) = Some o.
Proof.
  induction r as [l|q k|q k|r1 IH1 r2 IH2|r1 _|]; cbn [reads_only run min_len].
  - intros Hl g s cont o H.
    destruct (strip_prefix l s) as [s'|] eqn:E; [|discriminate].
    apply strip_prefix_Some in E as ->.
    exists (String.length l). rewrite take_app, drop_app, length_app.
    repeat split; [lia | lia | exact Hl | exact H].
  - intros Hk g s cont o H.
    destruct (star_inv _ _ _ _ _ H) as (n & Hn & He & Hc).
    exists n. repeat split; [lia | exact Hn | | exact Hc].
    now apply (every_impl (cmatch k)).
  - intros Hk g s cont o H. destruct s as [|c s]; [discriminate|].
    destruct (cmatch k c) eqn:Hc; [|discriminate].
    destruct (star_inv _ _ _ _ _ H) as (n & Hn & He & Hcont).
    exists (S n). cbn. repeat split; [lia | lia | | exact Hcont].
    rewrite (Hk c Hc). now apply (every_impl (cmatch k)).
  - intros [H1 H2] g s cont o H.
    destruct (IH1 H1 _ _ _ _ H) as (n1 & Hm1 & Hn1 & He1 & Hc1).
    destruct (IH2 H2 _ _ _ _ Hc1) as (n2 & Hm2 & Hn2 & He2 & Hc2).
    rewrite length_drop in Hn2.
    exists (n1 + n2). rewrite take_add, drop_add, every_app, He1, He2.
    repeat split; [lia | lia | exact Hc2].
  - intros [].
  - intros _ g s cont o H. destruct s; [|discriminate].
    exists 0. now repeat split.
Qed.

Lemma group_inv (f : ascii -> bool) (r : regex) :
  reads_only f r ->
  forall g s cont o,
    run (Group r) g s cont = Some o ->
    exists n, min_len r <= n /\ n <= String.length s
              /\ every f (take n s) = true
              /\ cont (Some (take n s)) (drop n s) = Some o.
Proof.
  intros Hr g s cont o H. cbn [run] in H.
  destruct (reads_only_inv f r Hr _ _ _ _ H) as (n & Hm & Hn & He & Hc).
  exists n. repeat split; try assumption.
  rewrite length_drop in Hc.
  now replace (String.length s - (String.length s - n)) with n in Hc by lia.
Qed.

Lemma captures_only_inv (f : ascii -> bool) (r : regex) :
  captures_only f r ->
  forall g s cont o,
    group_all f g ->
    run r g s cont = Some o ->
    exists g' s', group_all f g' /\ cont g' s' = Some o.
Proof.
  induction r as [l|q k|q k|r1 IH1 r2 IH2|r1 _|]; cbn [captures_only].
  - intros _ g s cont o Hg H. cbn [run] in H.
    destruct (strip_prefix l s) as [s'|]; [eauto | discriminate].
  - intros _ g s cont o Hg H. cbn [run] in H.
    destruct (star_inv _ _ _ _ _ H) as (n & _ & _ & Hc). eauto.
  - intros _ g s cont o Hg H. cbn [run] in H.
    destruct s as [|c s]; [discriminate|].
    destruct (cmatch k c); [|discriminate].
    destruct (star_inv _ _ _ _ _ H) as (n & _ & _ & Hc). eauto.
  - intros [H1 H2] g s cont o Hg H. cbn [run] in H.
    destruct (IH1 H1 _ _ _ _ Hg H) as (g1 & s1 & Hg1 & Hc1).
    exact (IH2 H2 _ _ _ _ Hg1 Hc1).
  - intros Hr g s cont o Hg H.
    destruct (group_inv f r1 Hr _ _ _ _ H) as (n & _ & _ & He & Hc).
    exists (Some (take n s)), (drop n s). split; [exact He | exact Hc].
  - intros _ g s cont o Hg H. cbn [run] in H.
    destruct s; [eauto | discriminate].
Qed.

(** A search result comes from a match at some position. *)
Lemma search_inv (r : regex) (s : string) :
  forall idx m,
    search r idx s = Some m ->
    exists t rest, match_here r t = Some (m_group1 m, rest).
Proof.
  induction s as [|c s IH]; intros idx m; cbn [search].
  - destruct (match_here r "") as [[g rest]|] eqn:E; [|discriminate].
    intros [= <-]. cbn. eauto.
  - destruct (match_here r (String c s)) as [[g rest]|] eqn:E.
    + intros [= <-]. cbn. eauto.
    + apply IH.
Qed.

Lemma str_match_group_all (f : ascii -> bool) (r : regex) (s : string)
    (m : rmatch) :
  captures_only f r ->
  str_match s r = Some m ->
  group_all f (m_group1 m).
Proof.
  intros Hr H. destruct (search_inv _ _ _ _ H) as (t & rest & Ht).
  unfold match_here in Ht.
  destruct (captures_only_inv f r Hr None t _ _ I Ht) as (g' & s' & Hg & Hk).
  now injection Hk as <- _.
Qed.

(** An anchored literal [l$] can only be found at the end. *)
Lemma search_suffix_inv (l s : string) :
  forall idx m,
    search (Lit l · Eos) idx s = Some m -> exists p, s = p ++ l.
Proof.
  induction s as [|c s IH]; intros idx m; cbn [search];
    rewrite match_here_suffix.
  - destruct (String.eqb "" l) eqn:E; [|discriminate].
    apply String.eqb_eq in E as <-. intros _. now exists "".
  - destruct (String.eqb (String c s) l) eqn:E.
    + apply String.eqb_eq in E as <-. intros _. now exists "".
    + intros H. destruct (IH _ _ H) as [p ->].
      exists (String c p). now rewrite app_cons.
Qed.

(** Removing an anchored literal leaves the text or the text without
    that suffix. *)
Lemma replace_anchored (l s : string) :
  replace_re s (Lit l · Eos) "" = s
  \/ s = replace_re s (Lit l · Eos) "" ++ l.
Proof.
  destruct (str_match s (Lit l · Eos)) as [m|] eqn:E.
  - right. destruct (search_suffix_inv _ _ _ _ E) as [p ->].
    now rewrite replace_suffix.
  - left. unfold replace_re. now rewrite E.
Qed.

End RegexSound.

(** ** More on the Port Scanner and the Process Classifier *)

Module ScannerMore.
Import JsString Regex Scanner ScannerSpec RegexSpec.
Import JsStringFacts RegexFacts RegexSound.
Local Open Scope regex_scope.

Lemma rev_app_eq (a b : string) : String.rev_app a b = String.rev a ++ b.
Proof.
  unfold String.rev. revert b; induction a as [|c a IH]; intros b; cbn.
  - now rewrite app_nil_l.
  - rewrite (IH (String c b)), (IH (String c "")).
    rewrite string_app_assoc. now rewrite app_cons, app_nil_l.
Qed.

Lemma rev_cons (c : ascii) (a : string) :
  String.rev (String c a) = String.rev a ++ String c "".
Proof. unfold String.rev at 1. cbn. apply rev_app_eq. Qed.

Lemma rev_app_distr (a b : string) :
  String.rev (a ++ b) = String.rev b ++ String.rev a.
Proof.
  induction a as [|c a IH]; rewrite ?app_nil_l, ?app_cons.
  - change (String.rev "") with "". now rewrite app_empty_r.
  - now rewrite !rev_cons, IH, string_app_assoc.
Qed.

Lemma rev_involutive (a : string) : String.rev (String.rev a) = a.
Proof.
  induction a as [|c a IH]; [reflexivity|].
  rewrite rev_cons, rev_app_distr, IH. reflexivity.
Qed.

Lemma every_rev (f : ascii -> bool) (a : string) :
  every f (String.rev a) = every f a.
Proof.
  induction a as [|c a IH]; [reflexivity|].
  rewrite rev_cons, every_app, IH. cbn. rewrite andb_true_r. apply andb_comm.
Qed.

(** [drop_spaces] removes a prefix of white space and stops at a code
    unit that is not white space. *)
Lemma drop_spaces_split (s : string) :
  exists w, s = w ++ drop_spaces s /\ every is_space w = true.
Proof.
  induction s as [|c s (w & Hw & He)]; cbn.
  - now exists "".
  - destruct (is_space c) eqn:Hc.
    + exists (String c w). rewrite app_cons, <- Hw. cbn. now rewrite Hc, He.
    + now exists "".
Qed.

Lemma drop_spaces_head (s : string) (c : ascii) (t : string) :
  drop_spaces s = String c t -> is_space c = false.
Proof.
  induction s as [|a s IH]; cbn; [discriminate|].
  destruct (is_space a) eqn:Ha; [exact IH|]. now intros [= <- _].
Qed.

(** A trimmed text does not start with white space. *)
Lemma trim_head (s : string) (c : ascii) (t : string) :
  trim s = String c t -> is_space c = false.
Proof.
  unfold trim. intros H.
  destruct (drop_spaces_split (String.rev (drop_spaces s))) as (w & Hw & He).
  rewrite <- (rev_involutive (drop_spaces (String.rev (drop_spaces s)))) in Hw.
  rewrite H in Hw.
  apply (f_equal String.rev) in Hw.
  rewrite rev_involutive, rev_app_distr, rev_involutive in Hw.
  rewrite app_cons in Hw. apply (drop_spaces_head s c _ Hw).
Qed.

(** The pieces of [split(/\s+/)] hold no white space. *)
Lemma split_ws_go_pieces (s : string) :
  forall in_run t, In t (split_ws_go in_run s) -> every not_space t = true.
Proof.
  induction s as [|c s IH]; intros in_run t; cbn [split_ws_go].
  - now intros [<-|[]].
  - destruct (is_space c) eqn:Hc.
    + destruct in_run; [apply IH|]. intros [<-|H]; [reflexivity | eauto].
    + destruct (split_ws_go false s) as [|piece rest] eqn:E.
      * intros [<-|[]]. cbn. unfold not_space. now rewrite Hc.
      * intros [<-|H].
        -- cbn. unfold not_space at 1. rewrite Hc. cbn.
           apply (IH false). rewrite E. now left.
        -- apply (IH false). rewrite E. now right.
Qed.

Lemma split_ws_first (c : ascii) (s : string) :
  is_space c = false ->
  exists piece rest, split_ws (String c s) = String c piece :: rest.
Proof.
  intros Hc. unfold split_ws. cbn [split_ws_go]. rewrite Hc.
  destruct (split_ws_go false s); eauto.
Qed.

(** Group 1 of a [/:(\d+)/] match is a port number. *)
Lemma port_match_is_port (address : string) (m : rmatch) :
  str_match address pattern_port = Some m ->
  exists p, m_group1 m = Some p /\ is_port p.
Proof.
  intros H. destruct (search_inv _ _ _ _ H) as (t & rest & Ht).
  unfold match_here, pattern_port in Ht. cbn [run] in Ht.
  destruct (strip_prefix ":" t) as [t'|]; [|discriminate].
  change (run (Group (Plus Greedy CDigit)) None t'
            (fun g r => Some (g, r)) = Some (m_group1 m, rest)) in Ht.
  destruct (group_inv is_digit (Plus Greedy CDigit) (fun c Hc => Hc)
              _ _ _ _ Ht) as (n & Hm & Hn & He & Hk).
  injection Hk as Hg _. exists (take n t'). split; [now symmetry|].
  split; [now apply take_nonempty | exact He].
Qed.

(** What [parseLine] accepts: a process id that is one non-empty token
    and a port that is a number. *)
Lemma parseLine_inv (line pid port : string) :
  parseLine line = Some (pid, port) ->
  pid <> "" /\ every not_space pid = true /\ is_port port.
Proof.
  unfold parseLine.
  destruct (split_ws (trim line)) as [|a [|address rest]] eqn:E;
    [discriminate | discriminate |].
  destruct (str_match address pattern_port) as [m|] eqn:Em; [|discriminate].
  destruct (port_match_is_port _ _ Em) as (p & Hp & Hport).
  rewrite Hp. intros [= <- <-]. split; [|split; [|exact Hport]].
  - destruct (trim line) as [|c t] eqn:Et; [discriminate|].
    destruct (split_ws_first c t (trim_head _ _ _ Et)) as (piece & r & Hs).
    rewrite Hs in E. now injection E as <- _.
  - apply (split_ws_go_pieces (trim line) false). fold (split_ws (trim line)).
    rewrite E. now left.
Qed.

Lemma scanLines_from_lines (psData : option string) (ls : list string)
    (process : NuxtProcess) :
  In process (scanLines psData ls) ->
  exists line,
    In line ls
    /\ parseLine line = Some (pid process, port process)
    /\ command process = snd (classify psData (pid process) (port process))
    /\ fst (classify psData (pid process) (port process)) = true.
Proof.
  induction ls as [|l ls IH]; cbn [scanLines]; [intros []|].
  destruct (parseLine l) as [[lpid lport]|] eqn:El.
  - destruct (classify psData lpid lport) as [isNuxt cmd] eqn:Ec.
    destruct isNuxt.
    + intros [<-|H].
      * exists l. cbn. rewrite Ec. repeat split; [now left | exact El].
      * destruct (IH H) as (line & ? & ?). exists line. split; [now right|easy].
    + intros H. destruct (IH H) as (line & ? & ?).
      exists line. split; [now right|easy].
  - intros H. destruct (IH H) as (line & ? & ?).
    exists line. split; [now right|easy].
Qed.

(** X1. Every candidate the scan returns has a process id that is a single
    non-empty token and a port that is a non-empty string of decimal
    digits, and was accepted by the classifier with the command it
    carries. *)
Theorem nuxtProcesses_well_formed (lsofData psData : option string)
    (process : NuxtProcess) :
  In process (nuxtProcesses lsofData psData) ->
  pid process <> ""
  /\ every not_space (pid process) = true
  /\ is_port (port process)
  /\ classify psData (pid process) (port process) = (true, command process).
Proof.
  unfold nuxtProcesses. destruct lsofData as [text|]; [|intros []].
  destruct (negb (JsString.truthy text) || String.eqb (trim text) "");
    [intros []|].
  intros H. destruct (scanLines_from_lines _ _ _ H) as (line & _ & Hp & Hc & Hm).
  destruct (parseLine_inv _ _ _ Hp) as (H1 & H2 & H3).
  repeat split; try assumption; try apply H3.
  destruct (classify psData (pid process) (port process)); cbn in *.
  now subst.
Qed.

Lemma nuxtProcesses_well_formed_witness :
  pid (MkProcess "12345" "3000" "Node.js server on port 3000") <> ""
  /\ every not_space "12345" = true
  /\ is_port "3000"
  /\ classify None "12345" "3000" = (true, "Node.js server on port 3000").
Proof.
  apply (nuxtProcesses_well_formed (Some "12345 localhost:3000") None
           (MkProcess "12345" "3000" "Node.js server on port 3000")).
  vm_compute. now left.
Defined.

(** X2. The first line of the process table that holds the process id and
    one of the keywords decides: the candidate is a match and its
    command is that line from its eleventh column on.  Lines before it
    that lack the id or the keyword are passed over. *)
Theorem classifyLines_first_keyword_line (pid command psLine : string)
    (before after : list string) :
  (forall l, In l before ->
     includes l pid = false \/ hasKeyword (toLowerCase l) = false) ->
  includes psLine pid = true ->
  hasKeyword (toLowerCase psLine) = true ->
  classifyLines pid command (before ++ psLine :: after)
  = (true, join " " (skipn 10 (split_ws psLine))).
Proof.
  intros Hbefore Hpid Hkw.
  induction before as [|l before IH]; cbn [classifyLines app].
  - now rewrite Hpid, Hkw.
  - destruct (Hbefore l (or_introl eq_refl)) as [-> | Hl].
    + apply IH. intros l' Hl'. apply Hbefore. now right.
    + rewrite Hl. destruct (includes l pid);
        apply IH; intros l' Hl'; apply Hbefore; now right.
Qed.

Lemma classifyLines_first_keyword_line_witness :
  classifyLines "1234" "Node.js server on port 3000"
    (["root 1234 0.0 0.1 1 2 ?? S 10:00 0:00 node server.js"]
     ++ "me 1234 0.0 0.1 1 2 ?? S 10:00 0:00 node nuxt dev" :: [])
  = (true, "node nuxt dev").
Proof.
  apply (classifyLines_first_keyword_line "1234" "Node.js server on port 3000"
           "me 1234 0.0 0.1 1 2 ?? S 10:00 0:00 node nuxt dev"
           ["root 1234 0.0 0.1 1 2 ?? S 10:00 0:00 node server.js"] []).
  - intros l [<-|[]]. right. vm_compute; reflexivity.
  - vm_compute; reflexivity.
  - vm_compute; reflexivity.
Defined.

(** X3. Where the address has one colon, followed by digits up to its end
    (the forms [*:3000] and [localhost:3000]), the port taken from the
    line is that trailing number. *)
Theorem parseLine_single_colon (line id host : string) (d : ascii)
    (digits : string) (rest : list string) :
  split_ws (trim line) = id :: (host ++ String ":" (String d digits)) :: rest ->
  no_colon host = true ->
  is_digit d = true ->
  every is_digit digits = true ->
  parseLine line = Some (id, String d digits).
Proof.
  intros Hs Hh Hd Hds. unfold parseLine. rewrite Hs.
  now rewrite (ScannerProps.port_of_single_colon_address host d digits Hh Hd Hds).
Qed.

Lemma parseLine_single_colon_witness :
  parseLine "12345 localhost:3000" = Some ("12345", "3000").
Proof.
  apply (parseLine_single_colon "12345 localhost:3000" "12345" "localhost"
           "3" "000" []); vm_compute; reflexivity.
Defined.

End ScannerMore.

(** ** More on the Project Resolver *)

Module ResolverMore.
Import JsString Regex Resolver ResolverSpec ScannerSpec RegexSpec.
Import JsStringFacts RegexFacts RegexSound.
Local Open Scope regex_scope.

Lemma nuxtPatterns_capture_no_space (pattern : regex) :
  In pattern nuxtPatterns -> captures_only not_space pattern.
Proof.
  intros [<-|[<-|[<-|[<-|[]]]]]; cbn; repeat split; auto.
Qed.

Lemma ruleCapture_no_space (command g : string) (pattern : regex) :
  In pattern nuxtPatterns ->
  ruleCapture command pattern = Some g ->
  every not_space g = true.
Proof.
  intros Hp. unfold ruleCapture.
  destruct (str_match command pattern) as [m|] eqn:Em; [|discriminate].
  pose proof (str_match_group_all not_space pattern command m
                (nuxtPatterns_capture_no_space pattern Hp) Em) as Hg.
  destruct (m_group1 m) as [g'|]; [|discriminate].
  destruct (JsString.truthy g'); [|discriminate]. now intros [= <-].
Qed.

Lemma firstMatchingRule_In (command g : string) (patterns : list regex) :
  firstMatchingRule command patterns = Some g ->
  exists pattern, In pattern patterns /\ ruleCapture command pattern = Some g.
Proof.
  induction patterns as [|p rest IH]; cbn [firstMatchingRule]; [discriminate|].
  destruct (ruleCapture command p) as [g'|] eqn:E.
  - intros [= <-]. exists p. split; [now left | exact E].
  - intros H. destruct (IH H) as (q & Hq & Hc). exists q. split; [now right | exact Hc].
Qed.

Lemma stripTrailingSlash_every (f : ascii -> bool) (path : string) :
  every f path = true -> every f (stripTrailingSlash path) = true.
Proof.
  unfold stripTrailingSlash, trailing_slash. intros H.
  destruct (replace_anchored "/" path) as [-> | Hp]; [exact H|].
  rewrite Hp, every_app in H. now apply andb_true_iff in H as [H _].
Qed.

(** X4. A directory inferred from the command line never holds white
    space: each rule captures a run of non-blank code units, so a
    project path with a blank in it is never returned whole. *)
Theorem inferDirectory_no_space (command dir : string) :
  inferDirectory command = Some dir ->
  every not_space dir = true.
Proof.
  unfold inferDirectory. rewrite ResolverProps.firstCapture_refines.
  destruct (firstMatchingRule command nuxtPatterns) as [g|] eqn:E;
    [|discriminate].
  cbn. intros [= <-].
  destruct (firstMatchingRule_In _ _ _ E) as (p & Hp & Hc).
  apply stripTrailingSlash_every. exact (ruleCapture_no_space _ _ _ Hp Hc).
Qed.

Lemma inferDirectory_no_space_witness :
  every not_space "/home/u/app" = true.
Proof.
  apply (inferDirectory_no_space
           "node /home/u/app/node_modules/.bin/nuxt dev" "/home/u/app").
  vm_compute; reflexivity.
Defined.

Section WithEnv.
Variable env : Env.

Lemma sampleResources_both (pid : string) (usage : option string * option string) :
  sampleResources env pid = Ok usage ->
  usage = (None, None) \/ exists m c, usage = (Some m, Some c).
Proof.
  unfold sampleResources.
  destruct (execSync env (psCommand pid)) as [out|e]; cbn.
  - destruct (JsString.truthy (trim out)).
    + destruct (filter _ _) as [|rss [|pcpu rest]]; cbn; intros [= <-]; eauto.
    + intros [= <-]. eauto.
  - intros [= <-]. eauto.
Qed.

(** The stages of [getProjectInfo] after the directory is known. *)
Lemma getProjectInfo_stages (pid command : string) (details : ResolvedDetails) :
  getProjectInfo env pid command = Ok details ->
  details = no_details
  \/ exists d info info' usage,
       lsofFallback env pid (inferDirectory command) = Ok (Some d)
       /\ JsString.truthy d = true
       /\ readManifest env d = Ok info
       /\ readGitRemote env d info = Ok info'
       /\ sampleResources env pid = Ok usage
       /\ details = MkDetails (Some d) info' usage.1 usage.2.
Proof.
  unfold getProjectInfo.
  destruct (ResolverProps.lsofFallback_total env pid (inferDirectory command))
    as [dir Hdir].
  rewrite Hdir. cbn.
  destruct dir as [d|]; [|intros [= <-]; now left].
  destruct (JsString.truthy d) eqn:Ed; cbn; [|intros [= <-]; now left].
  destruct (ResolverProps.readManifest_total env d) as [info Hinfo].
  destruct (ResolverProps.readGitRemote_total env d info) as [info' Hinfo'].
  destruct (ResolverProps.sampleResources_total env pid) as [usage Husage].
  rewrite Hinfo. cbn. rewrite Hinfo'. cbn. rewrite Husage. cbn.
  intros [= <-]. right. exists d, info, info', usage. repeat split; assumption.
Qed.

(** X5. Every result of [getProjectInfo] is either empty or carries a
    non-empty working directory, and memory and CPU are present
    together or absent together. *)
Theorem getProjectInfo_shape (pid command : string) (details : ResolvedDetails) :
  getProjectInfo env pid command = Ok details ->
  (details = no_details
   \/ exists d, cwd details = Some d /\ JsString.truthy d = true)
  /\ (memory details = None <-> cpu details = None).
Proof.
  intros H. destruct (getProjectInfo_stages _ _ _ H)
    as [-> | (d & info & info' & usage & _ & Hd & _ & _ & Hu & ->)].
  - split; [now left | easy].
  - split; [right; eauto|]. cbn.
    destruct (sampleResources_both _ _ Hu) as [-> | (m & c & ->)]; cbn; easy.
Qed.

(** X6. A directory read off the command line wins: when a rule yields a
    non-empty path, that path is the working directory of the result
    and [lsof] is not consulted. *)
Theorem command_line_directory_wins (pid command : string) :
  truthy_opt (inferDirectory command) = true ->
  lsofFallback env pid (inferDirectory command) = Ok (inferDirectory command)
  /\ exists details,
       getProjectInfo env pid command = Ok details
       /\ cwd details = inferDirectory command.
Proof.
  intros Ht.
  assert (lsofFallback env pid (inferDirectory command)
          = Ok (inferDirectory command)) as Hl.
  { unfold lsofFallback. now rewrite Ht. }
  split; [exact Hl|].
  destruct (ResolverProps.getProjectInfo_total env pid command) as [details H].
  exists details. split; [exact H|].
  destruct (getProjectInfo_stages _ _ _ H)
    as [-> | (d & info & info' & usage & Hd & _ & _ & _ & _ & ->)].
  - revert H. unfold getProjectInfo. rewrite Hl.
    destruct (inferDirectory command) as [d|]; [|discriminate].
    cbn in Ht. cbn. rewrite Ht. cbn.
    destruct (ResolverProps.readManifest_total env d) as [info Hinfo].
    destruct (ResolverProps.readGitRemote_total env d info) as [info' Hinfo'].
    destruct (ResolverProps.sampleResources_total env pid) as [usage Husage].
    rewrite Hinfo. cbn. rewrite Hinfo'. cbn. rewrite Husage. cbn.
    discriminate.
  - rewrite Hl in Hd. injection Hd as Hd. now rewrite Hd.
Qed.

(** X7. When no rule yields a path, the first [n] line of the [lsof]
    output names the working directory. *)
Theorem lsof_directory_used (pid command out d : string) :
  truthy_opt (inferDirectory command) = false ->
  execSync env (lsofCommand pid) = Ok out ->
  firstNameLine (lines (trim out)) = Some d ->
  JsString.truthy d = true ->
  exists details,
    getProjectInfo env pid command = Ok details /\ cwd details = Some d.
Proof.
  intros Ht Hout Hline Hd.
  assert (lsofFallback env pid (inferDirectory command) = Ok (Some d)) as Hl.
  { unfold lsofFallback. rewrite Ht, Hout. cbn. now rewrite Hline. }
  unfold getProjectInfo. rewrite Hl. cbn. rewrite Hd. cbn.
  destruct (ResolverProps.readManifest_total env d) as [info Hinfo].
  destruct (ResolverProps.readGitRemote_total env d info) as [info' Hinfo'].
  destruct (ResolverProps.sampleResources_total env pid) as [usage Husage].
  rewrite Hinfo. cbn. rewrite Hinfo'. cbn. rewrite Husage. cbn.
  eexists; split; reflexivity.
Qed.

(** X8. Without a usable manifest there is no project information at all:
    when [package.json] is missing, unreadable, unparsable or [null],
    [projectInfo] is absent, whatever [.git/config] holds. *)
Theorem no_manifest_no_projectInfo (pid command : string)
    (details : ResolvedDetails) (d : string) :
  getProjectInfo env pid command = Ok details ->
  cwd details = Some d ->
  existsSync env (path_join env [d; "package.json"]) = false
  \/ (exists e, readFileSync env (path_join env [d; "package.json"]) = Throw e)
  \/ (exists text,
        readFileSync env (path_join env [d; "package.json"]) = Ok text
        /\ ((exists e, JSON_parse env text = Throw e)
            \/ JSON_parse env text = Ok JNull)) ->
  projectInfo details = None.
Proof.
  intros H Hcwd Hcause.
  destruct (getProjectInfo_stages _ _ _ H)
    as [-> | (d' & info & info' & usage & _ & _ & Hi & Hi' & _ & ->)];
    [reflexivity|].
  cbn in Hcwd. injection Hcwd as ->. cbn.
  assert (readManifest env d = Ok None) as Hnone.
  { destruct Hcause as [He | [[e He] | (text & Hr & [[e Hp] | Hp])]].
    - unfold readManifest. now rewrite He.
    - exact (ResolverProps.readManifest_read_failure env d e He).
    - exact (ResolverProps.readManifest_parse_failure env d text e Hr Hp).
    - exact (ResolverProps.readManifest_null env d text Hr Hp). }
  rewrite Hnone in Hi. injection Hi as <-.
  cbn in Hi'. now injection Hi' as <-.
Qed.

Lemma every_drop_spaces (f : ascii -> bool) (s : string) :
  every f s = true -> every f (drop_spaces s) = true.
Proof.
  intros H. destruct (ScannerMore.drop_spaces_split s) as (w & Hw & _).
  rewrite Hw, every_app in H. now apply andb_true_iff in H as [_ H].
Qed.

Lemma every_trim (f : ascii -> bool) (s : string) :
  every f s = true -> every f (trim s) = true.
Proof.
  intros H. unfold trim.
  rewrite ScannerMore.every_rev. apply every_drop_spaces.
  rewrite ScannerMore.every_rev. now apply every_drop_spaces.
Qed.

(** X9. The version-control step only fills in a missing repository: it
    keeps name and version, leaves a repository given by the manifest
    alone, and what it takes from [.git/config] is a string without a
    line break. *)
Theorem readGitRemote_fills_only (dir : string) (info : ProjectInfo) :
  exists info',
    readGitRemote env dir (Some info) = Ok (Some info')
    /\ name info' = name info
    /\ version info' = version info
    /\ (JsVal.truthy (repository info) = true -> info' = info)
    /\ (info' = info
        \/ exists url,
             repository info' = JStr url
             /\ every not_line_terminator url = true).
Proof.
  unfold readGitRemote.
  destruct (JsVal.truthy (repository info)) eqn:Et; cbn [negb].
  { exists info. repeat split; auto. }
  destruct (existsSync env _).
  2:{ exists info. repeat split; auto. }
  destruct (readFileSync env _) as [gitConfig|e]; cbn.
  2:{ exists info. repeat split; auto. }
  destruct (str_match gitConfig pattern_origin_url) as [m|] eqn:Em.
  2:{ exists info. repeat split; auto. }
  assert (captures_only not_line_terminator pattern_origin_url) as Hc.
  { cbn. repeat split; auto. }
  pose proof (str_match_group_all _ _ _ _ Hc Em) as Hg.
  destruct (m_group1 m) as [g|].
  2:{ exists info. repeat split; auto. }
  destruct (JsString.truthy g).
  2:{ exists info. repeat split; auto. }
  eexists. split; [reflexivity|]. cbn. repeat split; try discriminate.
  right. exists (trim g). split; [reflexivity|]. now apply every_trim.
Qed.

End WithEnv.

Lemma readGitRemote_fills_only_witness :
  exists info',
    readGitRemote Fixtures.env_project "/srv/app"
      (Some (MkProjectInfo (JStr "app") (JStr "1.2.3") JUndefined))
    = Ok (Some info')
    /\ name info' = JStr "app"
    /\ version info' = JStr "1.2.3"
    /\ (JsVal.truthy JUndefined = true ->
        info' = MkProjectInfo (JStr "app") (JStr "1.2.3") JUndefined)
    /\ (info' = MkProjectInfo (JStr "app") (JStr "1.2.3") JUndefined
        \/ exists url,
             repository info' = JStr url
             /\ every not_line_terminator url = true).
Proof.
  apply (readGitRemote_fills_only Fixtures.env_project "/srv/app"
           (MkProjectInfo (JStr "app") (JStr "1.2.3") JUndefined)).
Defined.

Lemma getProjectInfo_shape_witness :
  (MkDetails (Some "/srv/app")
     (Some (MkProjectInfo (JStr "app") (JStr "1.2.3")
              (JStr "git@github.com:a/b.git")))
     (Some "50 MB") (Some "2.0%") = no_details
   \/ exists d, Some "/srv/app" = Some d /\ JsString.truthy d = true)
  /\ (Some "50 MB" = None <-> Some "2.0%" = None).
Proof.
  apply (getProjectInfo_shape Fixtures.env_project "4242" "node server.js").
  vm_compute; reflexivity.
Defined.

Lemma command_line_directory_wins_witness :
  lsofFallback Fixtures.env_project "4242"
    (inferDirectory "npx nuxi dev -C /home/u/other")
  = Ok (inferDirectory "npx nuxi dev -C /home/u/other")
  /\ exists details,
       getProjectInfo Fixtures.env_project "4242"
         "npx nuxi dev -C /home/u/other" = Ok details
       /\ cwd details = inferDirectory "npx nuxi dev -C /home/u/other".
Proof.
  apply (command_line_directory_wins Fixtures.env_project "4242"
           "npx nuxi dev -C /home/u/other").
  vm_compute; reflexivity.
Defined.

Lemma lsof_directory_used_witness :
  exists details,
    getProjectInfo Fixtures.env_project "4242" "node server.js" = Ok details
    /\ cwd details = Some "/srv/app".
Proof.
  apply (lsof_directory_used Fixtures.env_project "4242" "node server.js"
           ("p4242" ++ Fixtures.newline ++ "fcwd" ++ Fixtures.newline
            ++ "n/srv/app" ++ Fixtures.newline) "/srv/app");
    vm_compute; reflexivity.
Defined.

Lemma no_manifest_no_projectInfo_witness :
  projectInfo (MkDetails (Some "/home/u/other") None (Some "50 MB") (Some "2.0%"))
  = None.
Proof.
  apply (no_manifest_no_projectInfo Fixtures.env_project "4242"
           "npx nuxi dev -C /home/u/other"
           (MkDetails (Some "/home/u/other") None (Some "50 MB") (Some "2.0%"))
           "/home/u/other").
  - vm_compute; reflexivity.
  - reflexivity.
  - left. vm_compute; reflexivity.
Defined.

(** The whole resolution on the fixture machine: directory from [lsof],
    name and version from the manifest, repository from the git
    configuration, memory and CPU from [ps]. *)
Example getProjectInfo_full :
  getProjectInfo Fixtures.env_project "4242" "node server.js"
  = Ok (MkDetails (Some "/srv/app")
          (Some (MkProjectInfo (JStr "app") (JStr "1.2.3")
                   (JStr "git@github.com:a/b.git")))
          (Some "50 MB") (Some "2.0%")).
Proof. vm_compute; reflexivity. Qed.

End ResolverMore.

(** ** More on the Correlation Store *)

Module StoreMore.
Import Store StoreSpec StoreProps.

Section WithEnv.
Variable env : Env.

(** X10. One run of the effect settles the store: whatever the store and the
    poll, running the effect again on the same poll makes no
    [getProjectInfo] call and does not call [setProcessDetails]. *)
Theorem reconcile_settles (procs : list NuxtProcess)
    (store : gmap string ResolvedDetails) :
  exists e,
    reconcile env procs store = Ok e
    /\ reconcile env procs (storeAfter store e) = Ok (MkEffect None []).
Proof.
  destruct (reconcile_reconciled env procs store) as (e & He & [Hdom _ _ _ _ _]).
  exists e. split; [exact He|]. now apply reconcile_steady.
Qed.

(** X11. The number of [getProjectInfo] calls of one run is the number of
    process ids of the poll that the store did not hold: a steady set
    costs nothing, and a process listening on several ports is resolved
    once. *)
Theorem reconcile_call_count (procs : list NuxtProcess)
    (store : gmap string ResolvedDetails) :
  exists e,
    reconcile env procs store = Ok e
    /\ length (calls e)
       = size (list_to_set (pid <$> procs) ∖ dom store : gset string).
Proof.
  destruct (reconcile_reconciled env procs store)
    as (e & He & [_ _ _ Hcalls Honce Hnew]).
  exists e. split; [exact He|].
  replace (length (calls e)) with (length (calls e).*1)
    by apply length_fmap.
  rewrite <- (size_list_to_set (C:=gset string) _ Honce).
  f_equal. apply set_eq. intros k.
  rewrite elem_of_list_to_set, list_elem_of_fmap, elem_of_difference. split.
  - intros (c & -> & Hc). destruct (Hcalls c Hc) as [Hn (q & Hq & ->)].
    split; [|exact Hn]. cbn.
    apply elem_of_list_to_set, list_elem_of_fmap. eauto.
  - intros [Hk Hn]. destruct (Hnew k Hk Hn) as (cmd & info & Hc & _).
    exists (k, cmd). split; [reflexivity | exact Hc].
Qed.

(** X12. A process id that left the live set and comes back is resolved
    afresh: the run that misses it drops its entry, and the next run
    that sees it calls [getProjectInfo] for it and stores the result. *)
Theorem reconcile_reappearing (procs1 procs2 : list NuxtProcess)
    (store : gmap string ResolvedDetails) (k : string) :
  k ∉@{gset string} list_to_set (pid <$> procs1) ->
  k ∈@{gset string} list_to_set (pid <$> procs2) ->
  exists e1 e2,
    reconcile env procs1 store = Ok e1
    /\ storeAfter store e1 !! k = None
    /\ reconcile env procs2 (storeAfter store e1) = Ok e2
    /\ exists cmd info,
         (k, cmd) ∈ calls e2
         /\ Resolver.getProjectInfo env k cmd = Ok info
         /\ storeAfter (storeAfter store e1) e2 !! k = Some info.
Proof.
  intros Hout Hin.
  destruct (reconcile_reconciled env procs1 store)
    as (e1 & He1 & [_ Hremoved _ _ _ _]).
  destruct (reconcile_reconciled env procs2 (storeAfter store e1))
    as (e2 & He2 & [_ _ _ _ _ Hnew]).
  exists e1, e2. split; [exact He1|].
  split; [now apply Hremoved|]. split; [exact He2|].
  apply Hnew; [exact Hin|]. apply not_elem_of_dom. now apply Hremoved.
Qed.

End WithEnv.

Lemma reconcile_reappearing_witness :
  exists e1 e2,
    reconcile Fixtures.env_project [MkProcess "5151" "3001" "node server.js"]
      {[ "4242" := no_details ]} = Ok e1
    /\ storeAfter {[ "4242" := no_details ]} e1 !! "4242" = None
    /\ reconcile Fixtures.env_project
         [MkProcess "4242" "3000" "node server.js"]
         (storeAfter {[ "4242" := no_details ]} e1) = Ok e2
    /\ exists cmd info,
         (("4242" : string), cmd) ∈ calls e2
         /\ Resolver.getProjectInfo Fixtures.env_project "4242" cmd = Ok info
         /\ storeAfter (storeAfter {[ "4242" := no_details ]} e1) e2 !! "4242"
            = Some info.
Proof.
  apply (reconcile_reappearing Fixtures.env_project
           [MkProcess "5151" "3001" "node server.js"]
           [MkProcess "4242" "3000" "node server.js"]
           {[ "4242" := no_details ]} "4242").
  - cbn.
    intros [H%elem_of_singleton | H%elem_of_empty]%elem_of_union;
      [discriminate | exact H].
  - cbn. apply elem_of_union. left. now apply elem_of_singleton.
Defined.

End StoreMore.

(** ** The menu *)

Module ViewProps.
Import JsString View MenuSpec.

Lemma add_spec (seen : list string) (x y : string) :
  y ∈ add seen x <-> y ∈ seen \/ y = x.
Proof.
  unfold add. destruct (existsb (String.eqb x) seen) eqn:E.
  - apply existsb_exists in E as (z & Hz & Hxz).
    apply String.eqb_eq in Hxz as <-. apply list_elem_of_In in Hz.
    split; [auto | now intros [H | ->]].
  - rewrite elem_of_app, list_elem_of_singleton. tauto.
Qed.

Lemma add_NoDup (seen : list string) (x : string) :
  NoDup seen -> NoDup (add seen x).
Proof.
  intros H. unfold add. destruct (existsb (String.eqb x) seen) eqn:E; [exact H|].
  apply NoDup_app. split; [exact H|]. split; [|apply NoDup_singleton].
  intros y Hy ->%list_elem_of_singleton.
  assert (existsb (String.eqb x) seen = true) as E'; [|congruence].
  apply existsb_exists. exists x. split; [now apply list_elem_of_In|].
  apply String.eqb_refl.
Qed.

Lemma fold_add_spec (xs : list string) :
  forall seen,
    NoDup seen ->
    NoDup (fold_left add xs seen)
    /\ forall y, y ∈ fold_left add xs seen <-> y ∈ seen \/ y ∈ xs.
Proof.
  induction xs as [|x xs IH]; intros seen Hseen; cbn [fold_left].
  - split; [exact Hseen|]. intros y. rewrite elem_of_nil. tauto.
  - destruct (IH (add seen x) (add_NoDup seen x Hseen)) as [Hn Hm].
    split; [exact Hn|]. intros y.
    rewrite Hm, add_spec, elem_of_cons. tauto.
Qed.

(** X13. The port list of the menu has no duplicate and holds exactly the
    ports of the detected processes. *)
Theorem ports_distinct_and_complete (procs : list NuxtProcess) :
  NoDup (ports procs)
  /\ forall p, p ∈ ports procs
               <-> exists process, process ∈ procs /\ port process = p.
Proof.
  unfold ports. destruct (fold_add_spec (map port procs) [] (NoDup_nil_2))
    as [Hn Hm].
  split; [exact Hn|]. intros p. rewrite Hm, elem_of_nil.
  change (map port procs) with (port <$> procs).
  rewrite list_elem_of_fmap. split.
  - intros [[] | (q & -> & Hq)]. eauto.
  - intros (q & Hq & <-). right. eauto.
Qed.

Lemma elem_of_processesOnPort (procs : list NuxtProcess) (p : string)
    (process : NuxtProcess) :
  process ∈ processesOnPort procs p <-> process ∈ procs /\ port process = p.
Proof.
  unfold processesOnPort. rewrite !list_elem_of_In, filter_In.
  now rewrite String.eqb_eq.
Qed.

(** X14. Every port of the menu has a main process: the [undefined] branch
    of [mainProcess ? ... : undefined] is never taken. *)
Theorem port_has_main_process (procs : list NuxtProcess) (p : string) :
  p ∈ ports procs ->
  exists mainProcess,
    head (processesOnPort procs p) = Some mainProcess
    /\ mainProcess ∈ procs /\ port mainProcess = p.
Proof.
  intros Hp. apply ports_distinct_and_complete in Hp as (q & Hq & Hport).
  assert (q ∈ processesOnPort procs p) as Hin
    by now apply elem_of_processesOnPort.
  destruct (processesOnPort procs p) as [|m rest] eqn:E.
  - now apply elem_of_nil in Hin.
  - exists m. split; [reflexivity|].
    apply elem_of_processesOnPort. rewrite E. left.
Qed.

Lemma port_has_main_process_witness :
  exists mainProcess,
    head (processesOnPort
            [MkProcess "1" "3000" "a"; MkProcess "2" "3001" "b";
             MkProcess "3" "3000" "c"] "3000") = Some mainProcess
    /\ mainProcess ∈ [MkProcess "1" "3000" "a"; MkProcess "2" "3001" "b";
                       MkProcess "3" "3000" "c"]
    /\ port mainProcess = "3000".
Proof.
  apply (port_has_main_process
           [MkProcess "1" "3000" "a"; MkProcess "2" "3001" "b";
            MkProcess "3" "3000" "c"] "3000").
  vm_compute. left.
Defined.

Lemma stopTargets_portSubmenu (store : gmap string ResolvedDetails)
    (procs : list NuxtProcess) (p : string) :
  stopTargets (portSubmenu store procs p) = pid <$> processesOnPort procs p.
Proof.
  unfold stopTargets, portSubmenu. cbn [items].
  rewrite !omap_app. unfold whenTruthy, whenText.
  destruct (JsVal.truthy (infoField version _));
    destruct (JsVal.truthy (infoField repository _));
    destruct (detailsOf store procs p ≫= memory) as [m|];
    try destruct (JsString.truthy m);
    destruct (detailsOf store procs p ≫= cpu) as [c|];
    try destruct (JsString.truthy c);
    cbn; induction (processesOnPort procs p); cbn; congruence.
Qed.

(** X15. Whatever the store holds, every detected process can be opened and
    stopped from the menu: the submenu of its port starts with the port
    row and has the "Open in Browser" entry for that port and a "Stop
    Server" entry for that process. *)
Theorem process_actions_available (store : gmap string ResolvedDetails)
    (procs : list NuxtProcess) (process : NuxtProcess) :
  process ∈ procs ->
  exists m,
    m ∈ runningServers store procs
    /\ key m = port process
    /\ head (items m) = Some (PortItem (port process))
    /\ OpenInBrowser (port process) ∈ items m
    /\ StopServer (pid process) ∈ items m.
Proof.
  intros Hin. exists (portSubmenu store procs (port process)).
  split; [|split; [reflexivity|split; [reflexivity|split]]].
  - unfold runningServers, hasNuxtRunning.
    destruct procs as [|q procs]; [now apply elem_of_nil in Hin|].
    cbn [length Nat.ltb Nat.leb].
    change (map ?f ?l) with (f <$> l). apply list_elem_of_fmap.
    exists (port process). split; [reflexivity|].
    apply ports_distinct_and_complete. eauto.
  - unfold portSubmenu. cbn [items].
    rewrite !elem_of_app. right. right. right. right. left.
    apply elem_of_cons. right. left.
  - unfold portSubmenu. cbn [items].
    rewrite !elem_of_app. do 7 right.
    change (map ?f ?l) with (f <$> l). apply list_elem_of_fmap.
    exists process. split; [reflexivity|].
    now apply elem_of_processesOnPort.
Qed.

Lemma process_actions_available_witness :
  exists m,
    m ∈ runningServers ∅ [MkProcess "4242" "3000" "node server.js"]
    /\ key m = "3000"
    /\ head (items m) = Some (PortItem "3000")
    /\ OpenInBrowser "3000" ∈ items m
    /\ StopServer "4242" ∈ items m.
Proof.
  apply (process_actions_available ∅
           [MkProcess "4242" "3000" "node server.js"]
           (MkProcess "4242" "3000" "node server.js")).
  left.
Defined.

End ViewProps.

(** ** From the scan to the menu *)

Module EndToEnd.
Import JsString Resolver Store View Fixtures MenuSpec.

Lemma filter_disjoint_perm {A : Type} (f g : A -> bool) (l : list A) :
  (forall x, f x = true -> g x = true -> False) ->
  (List.filter f l ++ List.filter g l)%list
  ≡ₚ List.filter (fun x => f x || g x) l.
Proof.
  intros Hfg. induction l as [|x l IH]; cbn; [reflexivity|].
  destruct (f x) eqn:Hf, (g x) eqn:Hg; cbn.
  - destruct (Hfg x Hf Hg).
  - now rewrite IH.
  - now rewrite <- Permutation_middle, IH.
  - exact IH.
Qed.

Lemma filter_all {A : Type} (f : A -> bool) (l : list A) :
  (forall x, x ∈ l -> f x = true) -> List.filter f l = l.
Proof.
  induction l as [|x l IH]; intros H; cbn; [reflexivity|].
  rewrite (H x) by left. f_equal. apply IH. intros y Hy. apply H. now right.
Qed.

Lemma partition_by_port (procs : list NuxtProcess) (ks : list string) :
  NoDup ks ->
  concat (processesOnPort procs <$> ks)
  ≡ₚ List.filter (fun q => existsb (String.eqb (port q)) ks) procs.
Proof.
  induction 1 as [|k ks Hk Hks IH]; cbn.
  - induction procs; cbn; auto.
  - rewrite IH. unfold processesOnPort. apply filter_disjoint_perm.
    intros q Hq%String.eqb_eq Hex. apply existsb_exists in Hex as (k' & Hk' & He).
    apply String.eqb_eq in He. apply Hk. apply list_elem_of_In. congruence.
Qed.

(** X16. Over the whole menu the "Stop Server" entries name each detected
    process exactly once, however many ports are shown and whatever the
    store holds. *)
Theorem stop_entries_cover_processes (store : gmap string ResolvedDetails)
    (procs : list NuxtProcess) :
  concat (stopTargets <$> runningServers store procs) ≡ₚ pid <$> procs.
Proof.
  unfold runningServers, hasNuxtRunning.
  destruct procs as [|q0 procs0]; [reflexivity|].
  cbn [length Nat.ltb Nat.leb]. set (procs := q0 :: procs0).
  change (map ?f ?l) with (f <$> l).
  assert (forall ks, concat (stopTargets <$> (portSubmenu store procs <$> ks))
                     = pid <$> concat (processesOnPort procs <$> ks)) as ->.
  { induction ks as [|k ks IH]; [reflexivity|].
    rewrite !fmap_cons. cbn [concat].
    now rewrite fmap_app, IH, ViewProps.stopTargets_portSubmenu. }
  destruct (ViewProps.ports_distinct_and_complete procs) as [Hn Hm].
  rewrite (partition_by_port procs _ Hn).
  rewrite filter_all; [reflexivity|].
  intros q Hq. apply existsb_exists. exists (port q).
  split; [|apply String.eqb_refl].
  apply list_elem_of_In, Hm. eauto.
Qed.

Section WithEnv.
Variable env : Env.

Lemma getProjectInfo_unresolved (pid command : string) :
  truthy_opt (inferDirectory command) = false ->
  (forall out, execSync env (lsofCommand pid) = Ok out ->
               truthy_opt (firstNameLine (lines (trim out))) = false) ->
  getProjectInfo env pid command = Ok no_details.
Proof.
  intros Hinfer Hlsof. unfold getProjectInfo, lsofFallback.
  generalize dependent (inferDirectory command). intros dir0 Hinfer.
  rewrite Hinfer. cbn.
  destruct (execSync env (lsofCommand pid)) as [out|e] eqn:Eout; cbn.
  - specialize (Hlsof out eq_refl).
    destruct (firstNameLine (lines (trim out))) as [d|]; cbn.
    + cbn in Hlsof. now rewrite Hlsof.
    + destruct dir0 as [d|]; [|reflexivity].
      cbn in Hinfer. now rewrite Hinfer.
  - destruct dir0 as [d|]; [|reflexivity].
    cbn in Hinfer. now rewrite Hinfer.
Qed.

Lemma has_empty (k : string) : has ∅ k = false.
Proof. apply StoreProps.has_false. rewrite dom_empty_L. apply not_elem_of_empty. Qed.

(** X17. A newly seen process whose directory cannot be found is still
    shown: the first poll resolves it once, to the empty result, and
    its submenu is titled [Port <port>] and holds the port row, "Open
    in Browser" and "Stop Server", with no version, memory, CPU or
    repository entry. *)
Theorem unresolved_process_menu (k p cmd : string) :
  truthy_opt (inferDirectory cmd) = false ->
  (forall out, execSync env (lsofCommand k) = Ok out ->
               truthy_opt (firstNameLine (lines (trim out))) = false) ->
  exists e,
    reconcile env [MkProcess k p cmd] ∅ = Ok e
    /\ calls e = [(k, cmd)]
    /\ runningServers (storeAfter ∅ e) [MkProcess k p cmd]
       = [MkSubmenu p (JStr ("Port " ++ p))
            [PortItem p; Separator; OpenInBrowser p; Separator;
             StopServer k]].
Proof.
  intros Hinfer Hlsof.
  exists (MkEffect (Some (<[k := no_details]> ∅)) [(k, cmd)]).
  split; [|split; [reflexivity|]].
  - unfold reconcile. cbn [length Nat.eqb existsb pid].
    rewrite has_empty. cbn [negb orb].
    rewrite map_filter_empty. cbn [fetchNew pid command].
    rewrite has_empty. cbn [negb].
    rewrite (getProjectInfo_unresolved k cmd Hinfer Hlsof).
    reflexivity.
  - unfold storeAfter. cbn [updated default from_option id].
    unfold runningServers, hasNuxtRunning, ports, portSubmenu, detailsOf,
      processesOnPort.
    cbn [length Nat.ltb Nat.leb map fold_left List.filter port].
    unfold add. cbn [existsb app map]. rewrite String.eqb_refl.
    cbn [head pid]. rewrite lookup_insert_eq. reflexivity.
Qed.

(** X18. A manifest whose [repository] is an object without a [url] still
    yields the "Open GitHub Repo" entry: the object itself is stored as
    the repository, the version-control step leaves it alone, and the
    entry's action raises a [TypeError] before any URL is opened. *)
Theorem object_repository_without_url (d text : string)
    (fields rfields : list (string * jsval)) :
  existsSync env (path_join env [d; "package.json"]) = true ->
  readFileSync env (path_join env [d; "package.json"]) = Ok text ->
  JSON_parse env text = Ok (JObj fields) ->
  JsVal.lookup_field "repository" fields = JObj rfields ->
  JsVal.truthy (JsVal.lookup_field "url" rfields) = false ->
  exists info,
    readManifest env d = Ok (Some info)
    /\ repository info = JObj rfields
    /\ readGitRemote env d (Some info) = Ok (Some info)
    /\ whenTruthy (repository info) (OpenGitHubRepo (repository info))
       = [OpenGitHubRepo (JObj rfields)]
    /\ repoUrlToOpen (repository info) = Throw "TypeError".
Proof.
  intros He Hr Hp Hrepo Hurl.
  exists (MkProjectInfo (JsVal.lookup_field "name" fields)
            (JsVal.lookup_field "version" fields) (JObj rfields)).
  split; [|repeat split].
  unfold readManifest. rewrite He, Hr. cbn. rewrite Hp. cbn.
  rewrite Hrepo. cbn. unfold JsVal.or. now rewrite Hurl.
Qed.

End WithEnv.

Lemma unresolved_process_menu_witness :
  exists e,
    reconcile ResolverSpec.env_ps_only
      [MkProcess "1234" "3000" "node server.js"] ∅ = Ok e
    /\ calls e = [("1234", "node server.js")]
    /\ runningServers (storeAfter ∅ e)
         [MkProcess "1234" "3000" "node server.js"]
       = [MkSubmenu "3000" (JStr "Port 3000")
            [PortItem "3000"; Separator; OpenInBrowser "3000"; Separator;
             StopServer "1234"]].
Proof.
  apply (unresolved_process_menu ResolverSpec.env_ps_only
           "1234" "3000" "node server.js").
  - vm_compute; reflexivity.
  - intros out H. vm_compute in H. discriminate.
Defined.

Lemma object_repository_without_url_witness :
  exists info,
    readManifest env_object_repository "/srv/lib" = Ok (Some info)
    /\ repository info = JObj [("type", JStr "git")]
    /\ readGitRemote env_object_repository "/srv/lib" (Some info)
       = Ok (Some info)
    /\ whenTruthy (repository info) (OpenGitHubRepo (repository info))
       = [OpenGitHubRepo (JObj [("type", JStr "git")])]
    /\ repoUrlToOpen (repository info) = Throw "TypeError".
Proof.
  apply (object_repository_without_url env_object_repository
           "/srv/lib" "MANIFEST"
           [("name", JStr "lib"); ("repository", JObj [("type", JStr "git")])]
           [("type", JStr "git")]); reflexivity.
Defined.

(** The menu of the fixture machine after its first poll. *)
Example resolved_process_menu :
  (e ← reconcile env_project [MkProcess "4242" "3000" "node server.js"] ∅;
   Ok (runningServers (storeAfter ∅ e)
         [MkProcess "4242" "3000" "node server.js"]))
  = Ok [MkSubmenu "3000" (JStr "app")
          [PortItem "3000"; VersionItem (JStr "1.2.3"); MemoryItem "50 MB";
           CpuItem "2.0%"; Separator; OpenInBrowser "3000";
           OpenGitHubRepo (JStr "git@github.com:a/b.git"); Separator;
           StopServer "4242"]].
Proof. vm_compute; reflexivity. Qed.

End EndToEnd.

(** ** More on the repository URL clean-up *)

Module RepoUrlMore.
Import JsString Regex RepoUrl UrlSpec JsStringFacts RegexFacts RegexSound.
Local Open Scope regex_scope.

Lemma endsWith_app (p l : string) : endsWith (p ++ l) l = true.
Proof.
  unfold endsWith. rewrite length_app.
  replace (String.length p + String.length l - String.length l)
    with (String.length p) by lia.
  rewrite drop_app. apply String.eqb_refl.
Qed.

(** X19. A URL that is already browsable is opened as it is: without a
    [git+] or [git@] prefix and without a [.git] suffix the clean-up
    changes nothing. *)
Theorem normalize_plain_url (url : string) :
  startsWith url "git+" = false ->
  startsWith url "git@" = false ->
  endsWith url ".git" = false ->
  normalize url = url.
Proof.
  intros Hplus Hat Hgit. unfold normalize. rewrite Hplus, Hat.
  unfold replace_re, git_suffix.
  destruct (str_match url (Lit ".git" · Eos)) as [m|] eqn:E; [|reflexivity].
  destruct (search_suffix_inv _ _ _ _ E) as [p ->].
  rewrite endsWith_app in Hgit. discriminate.
Qed.

Lemma normalize_plain_url_witness :
  normalize "https://github.com/a/b" = "https://github.com/a/b".
Proof.
  apply (normalize_plain_url "https://github.com/a/b"); vm_compute; reflexivity.
Defined.

End RepoUrlMore.

(** ** Component search *)

Module SearchProps.
Import JsString Search JsStringFacts RegexSound.

Lemma toLowerCase_truthy (t : string) :
  JsString.truthy (toLowerCase t) = JsString.truthy t.
Proof. now destruct t. Qed.

Lemma toLowerCase_app (a b : string) :
  toLowerCase (a ++ b) = toLowerCase a ++ toLowerCase b.
Proof.
  induction a as [|c a IH]; rewrite ?app_nil_l, ?app_cons; cbn;
    [reflexivity | now rewrite IH, app_cons].
Qed.

Lemma filter_pointwise {A : Type} (f g : A -> bool) (l : list A) :
  (forall x, f x = g x) -> List.filter f l = List.filter g l.
Proof.
  intros H. induction l as [|x l IH]; cbn; [reflexivity|].
  now rewrite H, IH.
Qed.

Lemma filter_twice {A : Type} (f g : A -> bool) (l : list A) :
  List.filter f (List.filter g l) = List.filter (fun x => g x && f x) l.
Proof.
  induction l as [|x l IH]; cbn; [reflexivity|].
  destruct (g x); cbn; [destruct (f x)|]; now rewrite IH.
Qed.

(** What the callback looks at in the query is its lower-case form. *)
Lemma keeps_lower (t t' : string) (ty : option string) (c : ComponentItem) :
  toLowerCase t = toLowerCase t' -> keeps t ty c = keeps t' ty c.
Proof.
  intros H. unfold keeps.
  rewrite <- (toLowerCase_truthy t), <- (toLowerCase_truthy t'), H.
  reflexivity.
Qed.

(** X20. The search ignores the case of the query: two queries with the
    same lower-case form select the same components. *)
Theorem filterComponents_query_case (cs : list ComponentItem)
    (t t' : string) (ty : option string) :
  toLowerCase t = toLowerCase t' ->
  filterComponents cs t ty = filterComponents cs t' ty.
Proof.
  intros H. unfold filterComponents. apply filter_pointwise.
  intros c. now apply keeps_lower.
Qed.

Lemma filterComponents_query_case_witness :
  filterComponents [MkItem "button" "base" "Button"; MkItem "h1" "prose" "H1"]
    "BUT" None
  = filterComponents [MkItem "button" "base" "Button"; MkItem "h1" "prose" "H1"]
      "but" None.
Proof.
  apply (filterComponents_query_case
           [MkItem "button" "base" "Button"; MkItem "h1" "prose" "H1"]
           "BUT" "but" None).
  vm_compute; reflexivity.
Defined.

(** X21. Filtering by type and then by text, or by text and then by type,
    is filtering by both at once. *)
Theorem filterComponents_compose (cs : list ComponentItem) (t : string)
    (ty : option string) :
  filterComponents (filterComponents cs "" ty) t None
    = filterComponents cs t ty
  /\ filterComponents (filterComponents cs t None) "" ty
     = filterComponents cs t ty.
Proof.
  unfold filterComponents. rewrite !filter_twice.
  split; apply filter_pointwise; intros c; unfold keeps; cbn [truthy_opt];
    destruct (truthy_opt ty && negb (bool_decide (Some (type c) = ty)));
    cbn; rewrite ?andb_true_r; try reflexivity.
  destruct (JsString.truthy t); [|reflexivity].
  now destruct (_ || _).
Qed.

Section WithCatalogue.
Variables components proseComponents : list string.
Variables kebabCase camelCase : string -> string.

Let catalogue : list ComponentItem :=
  getAllComponents components proseComponents kebabCase camelCase.

Lemma filter_none {A : Type} (f : A -> bool) (l : list A) :
  (forall x, x ∈ l -> f x = false) -> List.filter f l = [].
Proof.
  induction l as [|x l IH]; intros H; cbn; [reflexivity|].
  rewrite (H x) by left. apply IH. intros y Hy. apply H. now right.
Qed.

Lemma filter_by_type (ty other : string) (names : list string) :
  JsString.truthy ty = true ->
  ty <> other ->
  List.filter (keeps "" (Some ty))
    (map (fun n => MkItem (kebabCase n) ty (camelCase n)) names)
  = map (fun n => MkItem (kebabCase n) ty (camelCase n)) names
  /\ List.filter (keeps "" (Some ty))
       (map (fun n => MkItem (kebabCase n) other (camelCase n)) names)
     = [].
Proof.
  intros Ht Hne. split.
  - apply EndToEnd.filter_all. intros c Hc.
    change (map ?f ?l) with (f <$> l) in Hc.
    apply list_elem_of_fmap in Hc as (n & -> & _).
    unfold keeps. cbn [truthy_opt type]. rewrite Ht.
    now rewrite bool_decide_eq_true_2.
  - apply filter_none. intros c Hc.
    change (map ?f ?l) with (f <$> l) in Hc.
    apply list_elem_of_fmap in Hc as (n & -> & _).
    unfold keeps. cbn [truthy_opt type]. rewrite Ht.
    rewrite bool_decide_eq_false_2; [reflexivity | congruence].
Qed.

(** X22. The catalogue lists the base components first and the prose
    components after them, one item per name: it is the items of type
    [base] followed by the items of type [prose].  Selecting the type
    [base] (or [prose]) without a query returns exactly the items built
    from that list, and no selection returns the whole catalogue. *)
Theorem getAllComponents_by_type :
  length catalogue = length components + length proseComponents
  /\ filterComponents catalogue "" (Some "base")
     = map (fun n => MkItem (kebabCase n) "base" (camelCase n)) components
  /\ filterComponents catalogue "" (Some "prose")
     = map (fun n => MkItem (kebabCase n) "prose" (camelCase n))
         proseComponents
  /\ filterComponents catalogue "" None = catalogue
  /\ filterComponents catalogue "" (Some "") = catalogue
  /\ catalogue
     = (filterComponents catalogue "" (Some "base")
        ++ filterComponents catalogue "" (Some "prose"))%list.
Proof.
  assert (filterComponents catalogue "" (Some "base")
          = map (fun n => MkItem (kebabCase n) "base" (camelCase n)) components
          /\ filterComponents catalogue "" (Some "prose")
             = map (fun n => MkItem (kebabCase n) "prose" (camelCase n))
                 proseComponents) as [Hbase Hprose].
  { unfold catalogue, getAllComponents, filterComponents. split.
    - rewrite List.filter_app.
      rewrite (proj1 (filter_by_type "base" "prose" components eq_refl
                        ltac:(discriminate))).
      rewrite (proj2 (filter_by_type "base" "prose" proseComponents eq_refl
                        ltac:(discriminate))).
      apply app_nil_r.
    - rewrite List.filter_app.
      rewrite (proj2 (filter_by_type "prose" "base" components eq_refl
                        ltac:(discriminate))).
      rewrite (proj1 (filter_by_type "prose" "base" proseComponents eq_refl
                        ltac:(discriminate))).
      reflexivity. }
  split.
  { unfold catalogue, getAllComponents.
    now rewrite List.length_app, !List.length_map. }
  split; [exact Hbase|]. split; [exact Hprose|].
  split; [|split].
  - apply EndToEnd.filter_all. intros c _. reflexivity.
  - apply EndToEnd.filter_all. intros c _. reflexivity.
  - now rewrite Hbase, Hprose.
Qed.

End WithCatalogue.

(** [includes] is the substring relation. *)
Lemma includes_iff (s p : string) :
  includes s p = true <-> exists pre post, s = pre ++ p ++ post.
Proof.
  unfold includes, indexOf. generalize 0 as i.
  induction s as [|c s IH]; intros i; cbn [indexOf_from].
  - unfold startsWith.
    destruct (strip_prefix p "") as [r|] eqn:E.
    + split; [intros _|reflexivity].
      apply strip_prefix_Some in E. exists "", r. now rewrite app_nil_l.
    + split; [discriminate|]. intros (pre & post & H).
      destruct pre; [|discriminate].
      rewrite app_nil_l in H. rewrite H, strip_prefix_app in E. discriminate.
  - unfold startsWith.
    destruct (strip_prefix p (String c s)) as [r|] eqn:E.
    + split; [intros _|reflexivity].
      apply strip_prefix_Some in E. exists "", r. now rewrite app_nil_l.
    + rewrite IH. split.
      * intros (pre & post & ->). exists (String c pre), post.
        now rewrite app_cons.
      * intros (pre & post & H). destruct pre as [|c' pre].
        -- rewrite app_nil_l in H. rewrite H, strip_prefix_app in E.
           discriminate.
        -- rewrite app_cons in H. injection H as _ ->. eauto.
Qed.

Lemma includes_trans (a b c : string) :
  includes a b = true -> includes b c = true -> includes a c = true.
Proof.
  rewrite !includes_iff. intros (p1 & q1 & ->) (p2 & q2 & ->).
  exists (p1 ++ p2), (q2 ++ q1).
  now rewrite !string_app_assoc.
Qed.

(** X23. Typing more narrows the result: when the query [t1] occurs,
    whatever its case, inside the query [t2], every component selected
    for [t2] is selected for [t1]. *)
Theorem filterComponents_longer_query (cs : list ComponentItem)
    (t1 t2 : string) (ty : option string) (c : ComponentItem) :
  includes (toLowerCase t2) (toLowerCase t1) = true ->
  In c (filterComponents cs t2 ty) ->
  In c (filterComponents cs t1 ty).
Proof.
  intros Hsub. unfold filterComponents. rewrite !filter_In.
  intros [Hin Hk]. split; [exact Hin|]. revert Hk. unfold keeps.
  destruct (truthy_opt ty && negb (bool_decide (Some (type c) = ty)));
    [discriminate|].
  destruct (JsString.truthy t1) eqn:E1; [|reflexivity].
  destruct (JsString.truthy t2) eqn:E2.
  - cbn zeta. rewrite !orb_true_iff.
    intros [H | H]; [left | right]; exact (includes_trans _ _ _ H Hsub).
  - destruct t2; [|discriminate]. destruct t1; [discriminate|].
    apply includes_iff in Hsub as (pre & post & H).
    destruct pre; discriminate.
Qed.

Lemma filterComponents_longer_query_witness :
  In (MkItem "button-group" "base" "ButtonGroup")
     (filterComponents
        [MkItem "button" "base" "Button";
         MkItem "button-group" "base" "ButtonGroup"] "But" None).
Proof.
  apply (filterComponents_longer_query
           [MkItem "button" "base" "Button";
            MkItem "button-group" "base" "ButtonGroup"]
           "But" "buttonG" None (MkItem "button-group" "base" "ButtonGroup")).
  - vm_compute; reflexivity.
  - vm_compute. now left.
Defined.

End SearchProps.

(** ** The [npx nuxi ... -C <path>] rule on command lines of that form *)

Module DashC.
Import JsString Regex Resolver ResolverSpec ScannerSpec RegexSpec DashCSpec.
Import JsStringFacts RegexFacts RegexSound.
Local Open Scope regex_scope.

Lemma run_cat (r1 r2 : regex) (g : option string) (s : string)
    (cont : option string -> string -> option outcome) :
  run (r1 · r2) g s cont = run r1 g s (fun g' s' => run r2 g' s' cont).
Proof. reflexivity. Qed.

Lemma run_lit_app (l s : string) (g : option string)
    (cont : option string -> string -> option outcome) :
  run (Lit l) g (l ++ s) cont = cont g s.
Proof. cbn [run]. now rewrite strip_prefix_app. Qed.

Lemma run_group (r : regex) (g : option string) (s : string)
    (cont : option string -> string -> option outcome) :
  run (Group r) g s cont
  = run r g s
      (fun _ s' => cont (Some (take (String.length s - String.length s') s)) s').
Proof. reflexivity. Qed.

(** A greedy repetition followed by something that succeeds right
    after the whole run commits to the whole run. *)
Lemma star_greedy_commit (k : cclass) (w rest : string)
    (cont : string -> option outcome) (r : outcome) :
  every (cmatch k) w = true ->
  head_not k rest = true ->
  cont rest = Some r ->
  star Greedy k cont (w ++ rest) = Some r.
Proof.
  intros Hw Hrest Hr. induction w as [|c w IH].
  - rewrite app_nil_l. destruct rest as [|d rest]; cbn [star]; [exact Hr|].
    cbn in Hrest. apply negb_true_iff in Hrest. now rewrite Hrest.
  - rewrite app_cons. cbn [star]. cbn in Hw.
    apply andb_true_iff in Hw as [Hc Hw]. now rewrite Hc, (IH Hw).
Qed.

Lemma plus_greedy_commit (k : cclass) (w rest : string) (g : option string)
    (cont : option string -> string -> option outcome) (r : outcome) :
  JsString.truthy w = true ->
  every (cmatch k) w = true ->
  head_not k rest = true ->
  cont g rest = Some r ->
  run (Plus Greedy k) g (w ++ rest) cont = Some r.
Proof.
  intros Ht Hw Hrest Hr. destruct w as [|c w]; [discriminate|].
  rewrite app_cons. cbn [run]. cbn in Hw.
  apply andb_true_iff in Hw as [Hc Hw]. rewrite Hc.
  now apply star_greedy_commit.
Qed.

Lemma includes_startsWith (s p : string) :
  includes s p = false -> startsWith s p = false.
Proof.
  unfold includes, indexOf. destruct s; cbn [indexOf_from];
    now destruct (startsWith _ p).
Qed.

Lemma includes_tail (c : ascii) (s p : string) :
  includes (String c s) p = false -> includes s p = false.
Proof.
  intros H. destruct (includes s p) eqn:E; [|reflexivity].
  apply SearchProps.includes_iff in E as (pre & post & ->).
  assert (includes (String c (pre ++ p ++ post)) p = true) as E'; [|congruence].
  apply SearchProps.includes_iff. exists (String c pre), post.
  now rewrite app_cons.
Qed.

Lemma includes_app_l (a b p : string) :
  includes (a ++ b) p = false -> includes a p = false.
Proof.
  intros H. destruct (includes a p) eqn:E; [|reflexivity].
  apply SearchProps.includes_iff in E as (pre & post & ->).
  assert (includes ((pre ++ p ++ post) ++ b) p = true) as E'; [|congruence].
  apply SearchProps.includes_iff. exists pre, (post ++ b).
  now rewrite !string_app_assoc.
Qed.

(** Inside a text without [-C] that is followed by white space, no
    position starts with [-C]. *)
Lemma no_flag_at (b rest : string) :
  b <> "" ->
  includes b "-C" = false ->
  starts_space rest = true ->
  startsWith (b ++ rest) "-C" = false.
Proof.
  intros Hb Hinc Hrest. apply includes_startsWith in Hinc.
  destruct b as [|c [|d b]]; [contradiction | |].
  2:{ rewrite !app_cons. unfold startsWith in *. cbn [strip_prefix] in *.
      destruct (Ascii.eqb "-" c); [|reflexivity].
      destruct (Ascii.eqb "C" d); [discriminate | reflexivity]. }
  rewrite app_cons, app_nil_l. unfold startsWith. cbn [strip_prefix].
  destruct (Ascii.eqb "-" c); [|reflexivity].
  destruct rest as [|z rest]; [reflexivity|]. cbn in Hrest.
  destruct (Ascii.eqb "C" z) eqn:E; [|reflexivity].
  apply Ascii.eqb_eq in E as <-. discriminate.
Qed.

Lemma last_solid_tail (c : ascii) (s : string) :
  last_solid (String c s) = true -> last_solid s = true.
Proof. destruct s; [reflexivity | now cbn]. Qed.

Lemma last_solid_space (c : ascii) (s : string) :
  last_solid (String c s) = true -> is_space c = true -> s <> "".
Proof. intros H Hc ->. cbn in H. now rewrite Hc in H. Qed.

(** A run of white space inside such a text is never followed by the
    flag. *)
Lemma flag_star_fails (cont : string -> option outcome) (rest : string) :
  (forall s, startsWith s "-C" = false -> cont s = None) ->
  starts_space rest = true ->
  forall b,
    b <> "" ->
    last_solid b = true ->
    includes b "-C" = false ->
    star Greedy CSpace cont (b ++ rest) = None.
Proof.
  intros Hcont Hrest. induction b as [|d b IH]; intros Hb Hsolid Hinc;
    [contradiction|].
  assert (cont (String d (b ++ rest)) = None) as Hhere.
  { apply Hcont. rewrite <- app_cons. now apply no_flag_at. }
  rewrite app_cons. cbn [star cmatch].
  destruct (is_space d) eqn:Hd; [|exact Hhere].
  rewrite IH; [exact Hhere | | |].
  - exact (last_solid_space _ _ Hsolid Hd).
  - exact (last_solid_tail _ _ Hsolid).
  - exact (includes_tail _ _ _ Hinc).
Qed.

Lemma flag_fails (R : regex) (g : option string)
    (k0 : option string -> string -> option outcome) (b rest : string) :
  b <> "" ->
  last_solid b = true ->
  includes b "-C" = false ->
  starts_space rest = true ->
  run (Plus Greedy CSpace · (Lit "-C" · R)) g (b ++ rest) k0 = None.
Proof.
  intros Hb Hsolid Hinc Hrest. destruct b as [|d b]; [contradiction|].
  rewrite app_cons. cbn [run cmatch].
  destruct (is_space d) eqn:Hd; [|reflexivity].
  apply flag_star_fails.
  - intros s Hs. unfold startsWith in Hs.
    now destruct (strip_prefix "-C" s).
  - exact Hrest.
  - exact (last_solid_space _ _ Hsolid Hd).
  - exact (last_solid_tail _ _ Hsolid).
  - exact (includes_tail _ _ _ Hinc).
Qed.

(** The lazy [.*?] walks over such a text and stops where the flag
    follows. *)
Lemma lazy_skip (R : regex) (g : option string)
    (k0 : option string -> string -> option outcome) (rest : string)
    (r : outcome) :
  starts_space rest = true ->
  run (Plus Greedy CSpace · (Lit "-C" · R)) g rest k0 = Some r ->
  forall m,
    last_solid m = true ->
    includes m "-C" = false ->
    every not_line_terminator m = true ->
    star Lazy CDot
      (fun s => run (Plus Greedy CSpace · (Lit "-C" · R)) g s k0)
      (m ++ rest) = Some r.
Proof.
  intros Hrest Hr. induction m as [|c m IH]; intros Hsolid Hinc Hlt.
  - rewrite app_nil_l. destruct rest as [|z rest]; [discriminate|].
    cbn [star]. now rewrite Hr.
  - rewrite app_cons. cbn [star]. rewrite <- app_cons.
    rewrite (flag_fails R g k0 (String c m) rest); try assumption;
      [|discriminate].
    cbn in Hlt. apply andb_true_iff in Hlt as [Hc Hlt].
    cbn [cmatch]. unfold not_line_terminator in Hc. rewrite Hc.
    apply IH; [exact (last_solid_tail _ _ Hsolid)
              | exact (includes_tail _ _ _ Hinc) | exact Hlt].
Qed.

Lemma blank_parts (w : string) :
  blank w = true -> JsString.truthy w = true /\ every (cmatch CSpace) w = true.
Proof. unfold blank. now intros H%andb_true_iff. Qed.

Lemma solid_head (path rest : string) :
  JsString.truthy path = true ->
  every not_space path = true ->
  head_not CSpace (path ++ rest) = true.
Proof.
  destruct path as [|c path]; [discriminate|]. intros _ H.
  rewrite app_cons. cbn in *. now apply andb_true_iff in H as [H _].
Qed.

Lemma starts_space_blank (w rest : string) :
  blank w = true -> starts_space (w ++ rest) = true.
Proof.
  destruct w as [|c w]; [discriminate|]. unfold blank. cbn.
  intros H%andb_true_iff. rewrite app_cons. cbn. tauto.
Qed.

(** The match of the rule at the start of a command line of the form
    [npx nuxi<m> -C <path><rest>]. *)
Lemma match_nuxi_dash_C (ws1 m ws2 ws3 path rest : string) :
  blank ws1 = true -> blank ws2 = true -> blank ws3 = true ->
  last_solid m = true ->
  includes m "-C" = false ->
  every not_line_terminator m = true ->
  JsString.truthy path = true ->
  every not_space path = true ->
  starts_blank rest = true ->
  match_here pattern_nuxi_C
    ("npx" ++ ws1 ++ "nuxi" ++ m ++ ws2 ++ "-C" ++ ws3 ++ path ++ rest)
  = Some (Some path, rest).
Proof.
  intros [T1 W1]%blank_parts H2 [T3 W3]%blank_parts Hsolid Hinc Hlt Tp Wp Hrest.
  pose proof (blank_parts _ H2) as [T2 W2].
  unfold match_here, pattern_nuxi_C.
  rewrite run_cat, run_lit_app, run_cat.
  apply plus_greedy_commit; [exact T1 | exact W1 | reflexivity |].
  rewrite run_cat, run_lit_app, run_cat.
  change (run (Star Lazy CDot) None ?s ?cont) with (star Lazy CDot (cont None) s).
  cbv beta.
  apply lazy_skip; [now apply starts_space_blank | | exact Hsolid | exact Hinc
                   | exact Hlt].
  rewrite run_cat.
  apply plus_greedy_commit; [exact T2 | exact W2 | reflexivity |].
  rewrite run_cat, run_lit_app, run_cat.
  apply plus_greedy_commit; [exact T3 | exact W3 | now apply solid_head |].
  rewrite run_group.
  apply plus_greedy_commit; [exact Tp | exact Wp | |].
  - destruct rest as [|z rest]; [reflexivity|]. cbn in *.
    now rewrite Hrest.
  - rewrite length_app.
    replace (String.length path + String.length rest - String.length rest)
      with (String.length path) by lia.
    now rewrite take_app.
Qed.

Lemma search_here (r : regex) (s rest : string) (g : option string)
    (idx : nat) :
  match_here r s = Some (g, rest) ->
  m_group1 <$> search r idx s = Some g.
Proof. intros H. destruct s; cbn [search]; now rewrite H. Qed.

(** Trailing white space of the text before the flag belongs to the
    white space in front of the flag. *)
Lemma split_trailing_spaces (mid : string) :
  exists m sp,
    mid = m ++ sp /\ every is_space sp = true /\ last_solid m = true.
Proof.
  induction mid as [|c mid (m & sp & -> & Hsp & Hm)].
  - now exists "", "".
  - destruct m as [|d m].
    + destruct (is_space c) eqn:Hc.
      * exists "", (String c sp). rewrite !app_nil_l. cbn. now rewrite Hc, Hsp.
      * exists (String c ""), sp. rewrite app_cons, !app_nil_l. cbn.
        now rewrite Hc.
    + exists (String c (String d m)), sp. now rewrite !app_cons.
Qed.

(** Before the first [npx] no match of the rule can start. *)
Lemma no_npx_at (b rest : string) :
  b <> "" ->
  includes b "npx" = false ->
  strip_prefix "npx" (b ++ "npx" ++ rest) = None.
Proof.
  intros Hb Hinc. apply includes_startsWith in Hinc.
  destruct b as [|c1 [|c2 [|c3 b]]]; [contradiction | | |].
  - rewrite app_cons, app_nil_l. cbn [strip_prefix].
    now destruct (Ascii.eqb "n" c1).
  - rewrite !app_cons, app_nil_l. cbn [strip_prefix].
    destruct (Ascii.eqb "n" c1); [|reflexivity].
    now destruct (Ascii.eqb "p" c2).
  - rewrite !app_cons. unfold startsWith in Hinc. cbn [strip_prefix] in *.
    destruct (Ascii.eqb "n" c1); [|reflexivity].
    destruct (Ascii.eqb "p" c2); [|reflexivity].
    destruct (Ascii.eqb "x" c3); [discriminate | reflexivity].
Qed.

Lemma search_after_prefix (pre rest : string) (g : option string)
    (left : string) :
  includes pre "npx" = false ->
  match_here pattern_nuxi_C ("npx" ++ rest) = Some (g, left) ->
  forall idx,
    m_group1 <$> search pattern_nuxi_C idx (pre ++ "npx" ++ rest) = Some g.
Proof.
  intros Hinc Hmatch. induction pre as [|c pre IH]; intros idx.
  - rewrite app_nil_l. exact (search_here _ _ _ _ idx Hmatch).
  - assert (match_here pattern_nuxi_C (String c pre ++ "npx" ++ rest) = None)
      as Hnone.
    { unfold match_here, pattern_nuxi_C. rewrite run_cat. cbn [run].
      rewrite no_npx_at; [reflexivity | discriminate | exact Hinc]. }
    rewrite app_cons in *. cbn [search]. rewrite Hnone.
    apply IH. exact (includes_tail _ _ _ Hinc).
Qed.

Lemma ruleCapture_nuxi_dash_C (pre ws1 mid ws2 ws3 path rest : string) :
  includes pre "npx" = false ->
  blank ws1 = true -> blank ws2 = true -> blank ws3 = true ->
  includes mid "-C" = false ->
  every not_line_terminator mid = true ->
  JsString.truthy path = true ->
  every not_space path = true ->
  starts_blank rest = true ->
  ruleCapture
    (pre ++ "npx" ++ ws1 ++ "nuxi" ++ mid ++ ws2 ++ "-C" ++ ws3 ++ path
     ++ rest)
    pattern_nuxi_C
  = Some path.
Proof.
  intros Hpre H1 H2 H3 Hinc Hlt Tp Wp Hrest.
  destruct (split_trailing_spaces mid) as (m & sp & -> & Hsp & Hm).
  rewrite every_app in Hlt. apply andb_true_iff in Hlt as [Hlt _].
  apply includes_app_l in Hinc.
  assert (blank (sp ++ ws2) = true) as H2'.
  { unfold blank in *. apply andb_true_iff in H2 as [T2 W2].
    rewrite every_app, Hsp, W2. destruct sp; [now rewrite app_nil_l, T2|].
    reflexivity. }
  replace (pre ++ "npx" ++ ws1 ++ "nuxi" ++ (m ++ sp) ++ ws2 ++ "-C" ++ ws3
           ++ path ++ rest)
    with (pre ++ "npx" ++ ws1 ++ "nuxi" ++ m ++ (sp ++ ws2) ++ "-C" ++ ws3
          ++ path ++ rest)
    by now rewrite !string_app_assoc.
  pose proof (match_nuxi_dash_C ws1 m (sp ++ ws2) ws3 path rest
                H1 H2' H3 Hm Hinc Hlt Tp Wp Hrest) as Hmatch.
  unfold ruleCapture, str_match.
  pose proof (search_after_prefix pre _ _ _ Hpre Hmatch 0) as Hs.
  destruct (search pattern_nuxi_C 0 _) as [mt|]; [|discriminate].
  cbn in Hs. injection Hs as ->. now rewrite Tp.
Qed.

(** A search result comes from a match at some position of the text. *)
Lemma search_inv_at (r : regex) (s : string) :
  forall idx m,
    search r idx s = Some m ->
    exists pre t rest,
      s = pre ++ t /\ match_here r t = Some (m_group1 m, rest).
Proof.
  induction s as [|c s IH]; intros idx m; cbn [search].
  - destruct (match_here r "") as [[g rest]|] eqn:E; [|discriminate].
    intros [= <-]. exists "", "", rest. now rewrite app_nil_l.
  - destruct (match_here r (String c s)) as [[g rest]|] eqn:E.
    + intros [= <-]. exists "", (String c s), rest. now rewrite app_nil_l.
    + intros H. destruct (IH _ _ H) as (pre & t & rest & -> & Ht).
      exists (String c pre), t, rest. now rewrite app_cons.
Qed.

(** The two [node] rules match nothing in a command line that does not
    hold the word [node]. *)
Lemma node_rules_need_node (command : string) :
  includes command "node" = false ->
  ruleCapture command pattern_node_modules = None
  /\ ruleCapture command pattern_dot_nuxt = None.
Proof.
  intros Hinc.
  assert (forall R, str_match command (Lit "node" · R) = None) as Hnone.
  { intros R. destruct (str_match command (Lit "node" · R)) as [m|] eqn:E;
      [|reflexivity].
    destruct (search_inv_at _ _ _ _ E) as (pre & t & rest & -> & Ht).
    unfold match_here in Ht. cbn [run] in Ht.
    destruct (strip_prefix "node" t) as [t'|] eqn:Et; [|discriminate].
    apply strip_prefix_Some in Et as ->.
    assert (includes (pre ++ "node" ++ t') "node" = true) as E'; [|congruence].
    apply SearchProps.includes_iff. eauto. }
  unfold ruleCapture, pattern_node_modules, pattern_dot_nuxt.
  now rewrite !Hnone.
Qed.

(** C6 (amended). For every command line of the form
    [<before>npx nuxi<args> -C /srv/proj<rest>] or
    [<before>npx nuxi<args> -C /srv/proj/<rest>] ([<before>] holds no
    [npx]; white space of any length after [npx], before and after
    [-C]; [<args>] holds no [-C] and no line break; [<rest>] is empty
    or starts with white space) that neither of the two [node] rules
    matches, directory inference returns [/srv/proj], without a
    trailing slash. *)
Theorem inferDirectory_npx_nuxi_dash_C
    (command pre ws1 mid ws2 ws3 path rest : string) :
  command
  = pre ++ "npx" ++ ws1 ++ "nuxi" ++ mid ++ ws2 ++ "-C" ++ ws3 ++ path
    ++ rest ->
  includes pre "npx" = false ->
  blank ws1 = true -> blank ws2 = true -> blank ws3 = true ->
  includes mid "-C" = false ->
  every not_line_terminator mid = true ->
  path = "/srv/proj" \/ path = "/srv/proj/" ->
  starts_blank rest = true ->
  ruleCapture command pattern_node_modules = None ->
  ruleCapture command pattern_dot_nuxt = None ->
  inferDirectory command = Some "/srv/proj".
Proof.
  intros -> Hpre H1 H2 H3 Hinc Hlt Hpath Hrest Hn1 Hn2.
  assert (JsString.truthy path = true /\ every not_space path = true
          /\ stripTrailingSlash path = "/srv/proj") as (Tp & Wp & Hstrip).
  { destruct Hpath as [-> | ->]; repeat split; vm_compute; reflexivity. }
  unfold inferDirectory, nuxtPatterns.
  rewrite ResolverProps.firstCapture_refines. cbn [firstMatchingRule].
  rewrite Hn1, Hn2.
  rewrite (ruleCapture_nuxi_dash_C pre ws1 mid ws2 ws3 path rest
             Hpre H1 H2 H3 Hinc Hlt Tp Wp Hrest).
  cbn [fmap option_fmap option_map]. now rewrite Hstrip.
Qed.

Lemma inferDirectory_npx_nuxi_dash_C_witness :
  inferDirectory "sh -c npx nuxi dev --port 3001  -C /srv/proj/ --open"
  = Some "/srv/proj".
Proof.
  apply (inferDirectory_npx_nuxi_dash_C
           "sh -c npx nuxi dev --port 3001  -C /srv/proj/ --open"
           "sh -c " " " " dev --port 3001" "  " " " "/srv/proj/" " --open").
  - reflexivity.
  - vm_compute; reflexivity.
  - reflexivity.
  - reflexivity.
  - reflexivity.
  - vm_compute; reflexivity.
  - reflexivity.
  - right; reflexivity.
  - reflexivity.
  - apply node_rules_need_node. vm_compute; reflexivity.
  - apply node_rules_need_node. vm_compute; reflexivity.
Defined.

(** Each condition of the form is needed: a longer path is captured
    whole, an earlier [-C] wins, and so does an earlier rule. *)
Example inferDirectory_dash_C_other_inputs :
  inferDirectory "npx nuxi dev -C /srv/projects" = Some "/srv/projects"
  /\ inferDirectory "npx nuxi -C /other -C /srv/proj" = Some "/other"
  /\ inferDirectory "node /a/node_modules/nuxt dev npx nuxi -C /srv/proj"
     = Some "/a".
Proof. repeat split; vm_compute; reflexivity. Qed.

End DashC.
